(** * badrobot: the rule-evaluation and reporting engine ([pkg/ruler/ruleset.go])

    A shallow embedding of [Ruleset.Run], [generateReport], [eval],
    [appendUniqueRule], [getObjectName] and [detectLineBreak], together with
    the properties of the reports they build.

    Conventions.
    - Go [string] and [[]byte] are Rocq [string]s (sequences of bytes).
    - Go [int] is a 64-bit two's complement integer: values are in [Z] and
      every addition the code performs on scores is wrapped by [int_wrap].
    - A nil slice and an empty slice are both the empty list.
    - Library code the engine calls ([encoding/json], [ghodss/yaml],
      [gojsonq], [kubeval], [os.Stat], the rule predicates behind [Rule.Eval])
      is collected in the record [Externals]; every definition and theorem is
      parametric in it.
    - The goroutines started by [generateReport] each send at most one value
      on a channel that is large enough for all of them and that is drained
      only after [wg.Wait()].  The order in which the values sit in the
      channel is therefore an arbitrary permutation of the catalog order; a
      [Scheduler] fixes that permutation.
    - The repository holds two copies of ruleset.go.  The definitions at top
      level follow pkg/ruler/ruleset.go; module [Validating] holds what the
      other copy does differently (its catalog, and a [generateReport] that
      still calls kubeval). *)

From Stdlib Require Import ZArith List String Ascii Bool Lia.
From Stdlib Require Import Permutation Sorted OrderedTypeEx DecimalString.
Import ListNotations.

Local Open Scope string_scope.
Local Open Scope Z_scope.
Local Open Scope list_scope.

Notation "s +++ t" := (String.append s t) (at level 60, right associativity).

(* ================================================================== *)
(** * Go primitives *)

Module GoInt.

(** Two's complement wrap-around of a 64-bit [int]. *)
Definition int_wrap (z : Z) : Z := (z + 2 ^ 63) mod 2 ^ 64 - 2 ^ 63.

Definition int_add (a b : Z) : Z := int_wrap (a + b).

Definition in_range (z : Z) : Prop := - 2 ^ 63 <= z < 2 ^ 63.

(** [fmt.Sprintf("%v", n)] for an [int]: signed decimal. *)
Definition Sprintf_int (z : Z) : string := NilZero.string_of_int (Z.to_int z).

End GoInt.
Export GoInt.

Module GoBytes.

(** [strings.Contains] / [bytes.Contains]. *)
Fixpoint Contains (s sub : string) : bool :=
  String.prefix sub s ||
  match s with
  | EmptyString => false
  | String _ s' => Contains s' sub
  end.

(** [bytes.Split(s, sep)] for a non-empty separator: the pieces between
    the non-overlapping occurrences of [sep], found from left to right.
    [skip] counts the bytes of a separator still to be dropped and [cur]
    is the piece being read. *)
Fixpoint split_from (sep : string) (skip : nat) (cur : string) (s : string)
  : list string :=
  match s with
  | EmptyString => [cur]
  | String c s' =>
      match skip with
      | S k => split_from sep k cur s'
      | O =>
          if String.prefix sep s
          then cur :: split_from sep (Nat.pred (String.length sep)) EmptyString s'
          else split_from sep O (cur +++ String c EmptyString) s'
      end
  end.

Definition Split (s sep : string) : list string := split_from sep O EmptyString s.

(** The code points [unicode.IsSpace] accepts, as the UTF-8 byte sequences
    [bytes.TrimSpace] meets them: the six ASCII blanks, U+0085, U+00A0,
    U+1680, U+2000..U+200A, U+2028, U+2029, U+202F, U+205F and U+3000. *)
Definition space_rune (bs : list N) : bool :=
  match bs with
  | [a] => ((9 <=? a) && (a <=? 13) || (a =? 32))%N
  | [194; b]%N => ((b =? 133) || (b =? 160))%N
  | [225; 154; 128]%N => true
  | [226; 128; c]%N =>
      ((128 <=? c) && (c <=? 138) || (c =? 168) || (c =? 169) || (c =? 175))%N
  | [226; 129; 159]%N => true
  | [227; 128; 128]%N => true
  | _ => false
  end.

(** Number of leading bytes of [l] that form one white-space rune
    (0 when [l] does not start with one). *)
Definition leading_space (l : list N) : nat :=
  if space_rune (firstn 1 l) then 1%nat
  else if space_rune (firstn 2 l) then 2%nat
  else if space_rune (firstn 3 l) then 3%nat
  else 0%nat.

(** Number of trailing bytes of the list whose reversal is [r] that form
    one white-space rune. *)
Definition trailing_space (r : list N) : nat :=
  if space_rune (rev (firstn 1 r)) then 1%nat
  else if space_rune (rev (firstn 2 r)) then 2%nat
  else if space_rune (rev (firstn 3 r)) then 3%nat
  else 0%nat.

Fixpoint trim_left (fuel : nat) (l : list N) : list N :=
  match fuel with
  | O => l
  | S fuel' =>
      match leading_space l with
      | O => l
      | n => trim_left fuel' (skipn n l)
      end
  end.

Fixpoint trim_right (fuel : nat) (r : list N) : list N :=
  match fuel with
  | O => r
  | S fuel' =>
      match trailing_space r with
      | O => r
      | n => trim_right fuel' (skipn n r)
      end
  end.

(** [bytes.TrimSpace]: drop every leading and trailing white-space rune.
    Each round removes at least one byte, so [length] rounds are enough. *)
Definition TrimSpace (s : string) : string :=
  let l := map N_of_ascii (list_ascii_of_string s) in
  let l1 := trim_left (List.length l) l in
  let r := trim_right (List.length l1) (rev l1) in
  string_of_list_ascii (map ascii_of_N (rev r)).

End GoBytes.
Export GoBytes.

(* ================================================================== *)
(** * Data model *)

(** The rule predicates of package [rules] that the catalog refers to.  A
    predicate is a capability the engine only passes on to [Rule.Eval]. *)
Inductive Predicate : Set :=
| DefaultNamespace | KubeSystemNamespace | NoSecurityContext
| ReadOnlyRootFilesystem | RunAsNonRoot | RunAsUser | Privileged
| CapSysAdmin | CapDropAny | CapDropAll | AllowPrivilegeEscalation
| ClusterAdmin | StarAllClusterRole | StarAllCoreAPIClusterRole
| StarClusterRoleAndBindings | SecretsClusterRole | ExecPodsClusterRole
| EscalateClusterRole | BindClusterRole | ImpersonateClusterRole
| ModifyPodLogsClusterRole | StarAllRoleRule.

(** [Rule], with the fields [NewRuleset] and [eval] use. *)
Record Rule : Set := mkRule {
  rule_Predicate : Predicate;
  rule_ID : string;
  rule_Selector : string;
  rule_Reason : string;
  rule_Link : string;
  rule_Kinds : list string;
  rule_Points : Z;
  rule_Advise : Z;
  rule_Weight : Z
}.

(** [RuleRef], with the fields [eval] fills in. *)
Record RuleRef : Set := mkRuleRef {
  Containers : Z;
  ID : string;
  Points : Z;
  Reason : string;
  Selector : string;
  Weight : Z;
  Link : string
}.

Record RuleScoring : Set := mkRuleScoring {
  Advise : list RuleRef;
  Passed : list RuleRef;
  Critical : list RuleRef
}.

Record Report : Set := mkReport {
  Object : string;
  FileName : string;
  Message : string;
  Score : Z;
  Valid : bool;
  Rules : list RuleRef;
  Scoring : RuleScoring
}.

Record Ruleset : Set := mkRuleset { rs_Rules : list Rule }.

(** The errors [Run] returns and the errors [Rule.Eval] returns. *)
Inductive error : Set :=
| InvalidInputError
| NotSupportedError (kind : string)
| OtherError (text : string).

Definition Error (e : error) : string :=
  match e with
  | InvalidInputError => "Invalid input"
  | NotSupportedError kind => kind
  | OtherError text => text
  end.

(** [kubeval.ValidationResult], restricted to what [generateReport] reads:
    the rendering [desc.String()] of each entry of [Errors], and [Kind]. *)
Record ValidationResult : Set := mkValidationResult {
  vr_Errors : list string;
  vr_Kind : string
}.

(** [kubeval.Config], restricted to the fields [generateReport] sets;
    [None] is the location [kubeval.NewDefaultConfig] starts with. *)
Record Config : Set := mkConfig {
  cfg_FileName : string;
  cfg_Strict : bool;
  cfg_SchemaLocation : option string
}.

(** Library functions and the environment. *)
Record Externals : Type := mkExternals {
  (** [json.Valid] *)
  json_Valid : string -> bool;
  (** [yaml.YAMLToJSON]: the JSON bytes, or the text of the error *)
  YAMLToJSON : string -> string + string;
  (** [runtime.GOOS] *)
  GOOS : string;
  (** [len(gojsonq.New().Reader(..).Errors())] *)
  jq_Errors : string -> nat;
  (** [jq.Copy().From(path).Get()]: [None] for nil, otherwise the value as
      [fmt.Sprintf("%v", _)] prints it *)
  jq_Get : string -> string -> option string;
  (** [rule.Eval(json)]: the match count and the error *)
  Rule_Eval : Rule -> string -> Z * option error;
  (** [os.IsNotExist(err)] for the [err] of [os.Stat(path)] *)
  Stat_IsNotExist : string -> bool;
  (** [kubeval.Validate]: the results, or the text of the error *)
  kubeval_Validate : string -> Config -> list ValidationResult + string
}.

(** The order in which the results of the goroutines reach the channel. *)
Record Scheduler : Type := mkScheduler {
  arrival : list Rule -> list Rule;
  arrival_perm : forall l, Permutation (arrival l) l
}.

Definition fifo : Scheduler := mkScheduler (fun l => l) (@Permutation_refl Rule).

Definition lifo : Scheduler :=
  mkScheduler (@rev Rule) (fun l => Permutation_sym (Permutation_rev l)).

(* ================================================================== *)
(** * Ordering of results *)

Definition LF : string := String "010"%char EmptyString.
Definition CR : string := String "013"%char EmptyString.
Definition dquote : string := String "034"%char EmptyString.

(** [reflect.DeepEqual] on two [RuleRef] values: field by field. *)
Definition DeepEqual (a b : RuleRef) : bool :=
  (Containers a =? Containers b) && (ID a =? ID b)%string &&
  (Points a =? Points b) && (Reason a =? Reason b)%string &&
  (Selector a =? Selector b)%string && (Weight a =? Weight b) &&
  (Link a =? Link b)%string.

(** Modelled from the spec: [RuleRefCustomOrder.Less], which is declared
    next to [RuleRef] and not in ruleset.go.  Primary key the weight,
    descending; secondary key the rule ID, ascending (Go compares strings
    byte by byte). *)
Definition Less (a b : RuleRef) : bool :=
  (Weight b <? Weight a) ||
  ((Weight a =? Weight b) && String.ltb (ID a) (ID b)).

(** [sort.Sort] is the Go library's.  It is modelled by the insertion sort it
    runs on short slices: every element in turn is swapped towards the front
    while it is [Less] than its predecessor.  [done] is the part already
    sorted, last element first. *)
Fixpoint insert_back (x : RuleRef) (done : list RuleRef) : list RuleRef :=
  match done with
  | [] => [x]
  | y :: done' => if Less x y then y :: insert_back x done' else x :: done
  end.

Definition sort_Sort (data : list RuleRef) : list RuleRef :=
  rev (fold_left (fun done x => insert_back x done) data []).

(* ================================================================== *)
(** * The evaluator *)

Fixpoint containsRule (rules : list RuleRef) (newRule : RuleRef) : bool :=
  match rules with
  | [] => false
  | rule :: rules' =>
      if DeepEqual rule newRule then true else containsRule rules' newRule
  end.

Definition appendUniqueRule (uniqueRules : list RuleRef) (newRule : RuleRef)
  : list RuleRef :=
  if negb (containsRule uniqueRules newRule)
  then uniqueRules ++ [newRule]
  else uniqueRules.

(** [eval]: what one goroutine sends on the channel, nothing when the rule
    does not apply to the kind of the object. *)
Definition eval (E : Externals) (json : string) (rule : Rule) : list RuleRef :=
  let '(containers, err) := Rule_Eval E rule json in
  match err with
  | Some (NotSupportedError _) => []
  | _ =>
      [ {| Containers := containers;
           ID := rule_ID rule;
           Points := rule_Points rule;
           Reason := rule_Reason rule;
           Selector := rule_Selector rule;
           Weight := rule_Weight rule;
           Link := rule_Link rule |} ]
  end.

(** [getObjectName] returns <kind>/<name>.<namespace> *)
Definition getObjectName (E : Externals) (json : string) : string :=
  if (0 <? jq_Errors E json)%nat then "Unknown"
  else
    match jq_Get E "kind" json with
    | None => "Unknown"
    | Some kind =>
        let object := kind in
        let object :=
          match jq_Get E "metadata.name" json with
          | None => object +++ "/undefined"
          | Some name => object +++ "/" +++ name
          end in
        let object :=
          match jq_Get E "metadata.namespace" json with
          | None => object +++ ".default"
          | Some namespace => object +++ "." +++ namespace
          end in
        object
    end.

Definition with_Object (r : Report) (x : string) : Report :=
  mkReport x (FileName r) (Message r) (Score r) (Valid r) (Rules r) (Scoring r).
Definition with_Message (r : Report) (x : string) : Report :=
  mkReport (Object r) (FileName r) x (Score r) (Valid r) (Rules r) (Scoring r).
Definition with_Score (r : Report) (x : Z) : Report :=
  mkReport (Object r) (FileName r) (Message r) x (Valid r) (Rules r) (Scoring r).
Definition with_Valid (r : Report) (x : bool) : Report :=
  mkReport (Object r) (FileName r) (Message r) (Score r) x (Rules r) (Scoring r).
Definition with_Rules (r : Report) (x : list RuleRef) : Report :=
  mkReport (Object r) (FileName r) (Message r) (Score r) (Valid r) x (Scoring r).
Definition with_Scoring (r : Report) (x : RuleScoring) : Report :=
  mkReport (Object r) (FileName r) (Message r) (Score r) (Valid r) (Rules r) x.
Definition with_Advise (s : RuleScoring) (x : list RuleRef) : RuleScoring :=
  mkRuleScoring x (Passed s) (Critical s).
Definition with_Passed (s : RuleScoring) (x : list RuleRef) : RuleScoring :=
  mkRuleScoring (Advise s) x (Critical s).
Definition with_Critical (s : RuleScoring) (x : list RuleRef) : RuleScoring :=
  mkRuleScoring (Advise s) (Passed s) x.

(** The report [generateReport] starts from. *)
Definition newReport (fileName : string) : Report :=
  {| Object := "Unknown"; FileName := fileName; Message := EmptyString;
     Score := 0; Valid := false; Rules := [];
     Scoring := {| Advise := []; Passed := []; Critical := [] |} |}.

(** The body of the loop [for ruleRef := range ch], after the update of
    [report.Rules]. *)
Definition classify (report : Report) (ruleRef : RuleRef) : Report :=
  if 0 <? Containers ruleRef then
    let report :=
      if 0 <=? Points ruleRef then
        let report := with_Score report (int_add (Score report) (Points ruleRef)) in
        with_Scoring report
          (with_Passed (Scoring report) (Passed (Scoring report) ++ [ruleRef]))
      else report in
    let report :=
      if Points ruleRef <? 0 then
        let report := with_Score report (int_add (Score report) (Points ruleRef)) in
        with_Scoring report
          (with_Critical (Scoring report) (Critical (Scoring report) ++ [ruleRef]))
      else report in
    report
  else if 0 <=? Points ruleRef then
    with_Scoring report
      (with_Advise (Scoring report) (Advise (Scoring report) ++ [ruleRef]))
  else report.

(** One round of the loop on the pair of [report] and [appliedRules].  The
    counter is at most the number of rules, so it cannot overflow. *)
Definition collect_step (st : Report * Z) (ruleRef : RuleRef) : Report * Z :=
  let '(report, appliedRules) := st in
  let appliedRules := appliedRules + 1 in
  let report := with_Rules report (appendUniqueRule (Rules report) ruleRef) in
  (classify report ruleRef, appliedRules).

Definition collect (report : Report) (ch : list RuleRef) : Report * Z :=
  fold_left collect_step ch (report, 0).

(** The contents of the channel after [wg.Wait()] and [close(ch)]. *)
Definition dispatch (E : Externals) (sch : Scheduler) (rs : Ruleset)
  (json : string) : list RuleRef :=
  flat_map (eval E json) (arrival sch (rs_Rules rs)).

Definition verdict (appliedRules score : Z) : string :=
  if appliedRules <? 1 then "This resource kind is not supported by badrobot"
  else if 0 <=? score then "Passed with a score of " +++ Sprintf_int score +++ " points"
  else "Failed with a score of " +++ Sprintf_int score +++ " points".

Definition sort_buckets (report : Report) : Report :=
  let report := with_Scoring report
    (with_Critical (Scoring report) (sort_Sort (Critical (Scoring report)))) in
  let report := with_Scoring report
    (with_Passed (Scoring report) (sort_Sort (Passed (Scoring report)))) in
  with_Scoring report
    (with_Advise (Scoring report) (sort_Sort (Advise (Scoring report)))).

(** [generateReport] from [report.Valid = true] to the end; the number of
    applied rules is returned next to the report. *)
Definition evaluate (E : Externals) (sch : Scheduler) (rs : Ruleset)
  (json : string) (report : Report) : Report * Z :=
  let report := with_Valid report true in
  let ch := dispatch E sch rs json in
  let '(report, appliedRules) := collect report ch in
  let report := with_Message report (verdict appliedRules (Score report)) in
  (sort_buckets report, appliedRules).

(** [generateReport] of pkg/ruler/ruleset.go, where the call of kubeval is
    commented out. *)
Definition generateReport (E : Externals) (rs : Ruleset) (sch : Scheduler)
  (fileName json schemaDir : string) : Report :=
  let report := newReport fileName in
  let report := with_Object report (getObjectName E json) in
  fst (evaluate E sch rs json report).

(** The local counter [appliedRules] of that call. *)
Definition appliedRules (E : Externals) (rs : Ruleset) (sch : Scheduler)
  (fileName json schemaDir : string) : Z :=
  let report := newReport fileName in
  let report := with_Object report (getObjectName E json) in
  snd (evaluate E sch rs json report).

(* ================================================================== *)
(** * The orchestrator *)

Definition detectLineBreak (E : Externals) (haystack : string) : string :=
  let windowsLineEnding := Contains haystack (CR +++ LF) in
  if windowsLineEnding && (GOOS E =? "windows")%string
  then CR +++ LF
  else LF.

Section RunLoop.

Variable E : Externals.
(** The call [rs.generateReport(fileName, data, schemaDir)] made for the
    fragment with index [i]. *)
Variable generate : nat -> string -> Report.

(** [for i, d := range bits], from index [i] on; [len_bits] is
    [len(bits)] and [bits] holds the fragments still to be visited. *)
Fixpoint Run_loop (len_bits i : nat) (bits : list string)
  (reports : list Report) : list Report * option error :=
  match bits with
  | [] => (reports, None)
  | d :: bits' =>
      let doc := TrimSpace d in
      if ((String.length doc =? 0)%nat ||
          ((String.length doc =? 3)%nat && (doc =? "---")%string))%bool
      then
        if ((len_bits =? i + 1)%nat && (List.length reports =? 0)%nat)%bool
        then ([], Some InvalidInputError)
        else Run_loop len_bits (S i) bits' reports
      else
        match YAMLToJSON E doc with
        | inr err => (reports, Some (OtherError err))
        | inl data =>
            let report := generate i data in
            Run_loop len_bits (S i) bits' (reports ++ [report])
        end
  end.

Definition Run_with (fileBytes : string) : list Report * option error :=
  let reports := [] in
  let isJSON := json_Valid E fileBytes in
  if isJSON then
    let report := generate O fileBytes in
    (reports ++ [report], None)
  else
    let lineBreak := detectLineBreak E fileBytes in
    let bits := Split fileBytes (lineBreak +++ "---" +++ lineBreak) in
    Run_loop (List.length bits) O bits reports.

End RunLoop.

(** [Run] of pkg/ruler/ruleset.go.  [scheds i] is the scheduling of the
    goroutines of the report built for fragment [i]. *)
Definition Run (E : Externals) (rs : Ruleset) (scheds : nat -> Scheduler)
  (fileName fileBytes schemaDir : string) : list Report * option error :=
  Run_with E
    (fun i data => generateReport E rs (scheds i) fileName data schemaDir)
    fileBytes.

(* ================================================================== *)
(** * The catalog

    The rules of [NewRuleset], in the order they are appended to [list].
    Fields a literal leaves out have their zero value. *)

Definition defaultNamespaceRule : Rule :=
  {| rule_Predicate := DefaultNamespace;
     rule_ID := "DefaultNamespace";
     rule_Selector := ".metadata .name == default .subjects .namespace == default";
     rule_Reason := "Operator is deployed into the default namespace.";
     rule_Link := EmptyString;
     rule_Kinds := ["Namespace"; "Deployment"; "ClusterRoleBinding"];
     rule_Points := (-3);
     rule_Advise := 0;
     rule_Weight := 0 |}.

Definition kubesystemNamespaceRule : Rule :=
  {| rule_Predicate := KubeSystemNamespace;
     rule_ID := "KubeSystemNamespace";
     rule_Selector := ".metadata .name == kube-system .subjects .namespace == kube-system";
     rule_Reason := "Operator is deployed into the kube-system namespace.";
     rule_Link := EmptyString;
     rule_Kinds := ["Namespace"; "Deployment"; "ClusterRoleBinding"];
     rule_Points := (-9);
     rule_Advise := 0;
     rule_Weight := 0 |}.

Definition noSecurityContextRule : Rule :=
  {| rule_Predicate := NoSecurityContext;
     rule_ID := "NoSecurityContext";
     rule_Selector := ".spec .template .spec .securityContext .containers[] ";
     rule_Reason := "Operators should be deployed with securityContextApplied";
     rule_Link := EmptyString;
     rule_Kinds := ["Pod"; "Deployment"; "StatefulSet"; "DaemonSet"];
     rule_Points := (-9);
     rule_Advise := 0;
     rule_Weight := 0 |}.

Definition readOnlyRootFilesystemRule : Rule :=
  {| rule_Predicate := ReadOnlyRootFilesystem;
     rule_ID := "ReadOnlyRootFilesystem";
     rule_Selector := "containers[] .securityContext .readOnlyRootFilesystem == true";
     rule_Reason := "An immutable root filesystem can prevent malicious binaries being added to PATH and increase attack cost";
     rule_Link := EmptyString;
     rule_Kinds := ["Pod"; "Deployment"; "StatefulSet"; "DaemonSet"];
     rule_Points := 1;
     rule_Advise := 3;
     rule_Weight := 0 |}.

Definition runAsNonRootRule : Rule :=
  {| rule_Predicate := RunAsNonRoot;
     rule_ID := "RunAsNonRoot";
     rule_Selector := "containers[] .securityContext .runAsNonRoot == true";
     rule_Reason := "Force the running image to run as a non-root user to ensure least privilege";
     rule_Link := EmptyString;
     rule_Kinds := ["Pod"; "Deployment"; "StatefulSet"; "DaemonSet"];
     rule_Points := 1;
     rule_Advise := 10;
     rule_Weight := 0 |}.

Definition runAsUserRule : Rule :=
  {| rule_Predicate := RunAsUser;
     rule_ID := "RunAsUser";
     rule_Selector := "containers[] .securityContext .runAsUser -gt 10000";
     rule_Reason := "Run as a high-UID user to avoid conflicts with the host's user table";
     rule_Link := EmptyString;
     rule_Kinds := ["Pod"; "Deployment"; "StatefulSet"; "DaemonSet"];
     rule_Points := 1;
     rule_Advise := 4;
     rule_Weight := 0 |}.

Definition privilegedRule : Rule :=
  {| rule_Predicate := Privileged;
     rule_ID := "Privileged";
     rule_Selector := "containers[] .securityContext .privileged == true";
     rule_Reason := "Privileged containers can allow almost completely unrestricted host access";
     rule_Link := EmptyString;
     rule_Kinds := ["Pod"; "Deployment"; "StatefulSet"; "DaemonSet"];
     rule_Points := (-30);
     rule_Advise := 0;
     rule_Weight := 0 |}.

Definition capSysAdminRule : Rule :=
  {| rule_Predicate := CapSysAdmin;
     rule_ID := "CapSysAdmin";
     rule_Selector := "containers[] .securityContext .capabilities .add == SYS_ADMIN";
     rule_Reason := "CAP_SYS_ADMIN is the most privileged capability and should always be avoided";
     rule_Link := EmptyString;
     rule_Kinds := ["Pod"; "Deployment"; "StatefulSet"; "DaemonSet"];
     rule_Points := (-30);
     rule_Advise := 0;
     rule_Weight := 0 |}.

Definition capDropAnyRule : Rule :=
  {| rule_Predicate := CapDropAny;
     rule_ID := "CapDropAny";
     rule_Selector := "containers[] .securityContext .capabilities .drop";
     rule_Reason := "Reducing kernel capabilities available to a container limits its attack surface";
     rule_Link := EmptyString;
     rule_Kinds := ["Pod"; "Deployment"; "StatefulSet"; "DaemonSet"];
     rule_Points := 1;
     rule_Advise := 0;
     rule_Weight := 0 |}.

Definition capDropAllRule : Rule :=
  {| rule_Predicate := CapDropAll;
     rule_ID := "CapDropAll";
     rule_Selector := ("containers[] .securityContext .capabilities .drop | index(" +++ dquote +++ "ALL" +++ dquote +++ ")");
     rule_Reason := "Drop all capabilities and add only those required to reduce syscall attack surface";
     rule_Link := EmptyString;
     rule_Kinds := ["Pod"; "Deployment"; "StatefulSet"; "DaemonSet"];
     rule_Points := 1;
     rule_Advise := 0;
     rule_Weight := 0 |}.

Definition allowPrivilegeEscalation : Rule :=
  {| rule_Predicate := AllowPrivilegeEscalation;
     rule_ID := "AllowPrivilegeEscalation";
     rule_Selector := "containers[] .securityContext .allowPrivilegeEscalation == true";
     rule_Reason := EmptyString;
     rule_Link := EmptyString;
     rule_Kinds := ["Pod"; "Deployment"; "StatefulSet"; "DaemonSet"];
     rule_Points := (-7);
     rule_Advise := 0;
     rule_Weight := 0 |}.

Definition clusterAdminRule : Rule :=
  {| rule_Predicate := ClusterAdmin;
     rule_ID := "ClusterAdmin";
     rule_Selector := ".roleRef .name";
     rule_Reason := "The Operator is using Kubernetes native cluster admin role. Operators must use a dedicated cluster role";
     rule_Link := EmptyString;
     rule_Kinds := ["ClusterRoleBinding"];
     rule_Points := (-30);
     rule_Advise := 0;
     rule_Weight := 0 |}.

Definition starAllClusterRoleRule : Rule :=
  {| rule_Predicate := StarAllClusterRole;
     rule_ID := "StarAllClusterRole";
     rule_Selector := ".rules .apiGroups .resources .verbs";
     rule_Reason := "The Operator SA cluster role has full permissions on all resources in the cluster";
     rule_Link := EmptyString;
     rule_Kinds := ["ClusterRole"];
     rule_Points := (-30);
     rule_Advise := 0;
     rule_Weight := 0 |}.

Definition starAllCoreAPIClusterRoleRule : Rule :=
  {| rule_Predicate := StarAllCoreAPIClusterRole;
     rule_ID := "StarAllCoreAPIClusterRole";
     rule_Selector := ".rules .apiGroups .resources .verbs";
     rule_Reason := "The Operator SA cluster role has full permissions on all CoreAPI resources in the cluster";
     rule_Link := EmptyString;
     rule_Kinds := ["ClusterRole"];
     rule_Points := (-30);
     rule_Advise := 0;
     rule_Weight := 0 |}.

Definition starClusterRoleAndBindingsRule : Rule :=
  {| rule_Predicate := StarClusterRoleAndBindings;
     rule_ID := "StarClusterRoleAndBindings";
     rule_Selector := ".rules .apiGroups .resources .verbs";
     rule_Reason := "The Operator SA cluster role has full permissions over ClusterRoles and ClusterRoleBindings";
     rule_Link := EmptyString;
     rule_Kinds := ["ClusterRole"];
     rule_Points := (-9);
     rule_Advise := 0;
     rule_Weight := 0 |}.

Definition secretsClusterRoleRule : Rule :=
  {| rule_Predicate := SecretsClusterRole;
     rule_ID := "SecretsClusterRole";
     rule_Selector := ".rules .apiGroups .resources .verbs";
     rule_Reason := "The Operator SA cluster role has access to all secrets";
     rule_Link := EmptyString;
     rule_Kinds := ["ClusterRole"];
     rule_Points := (-9);
     rule_Advise := 0;
     rule_Weight := 0 |}.

Definition execPodsClusterRoleRule : Rule :=
  {| rule_Predicate := ExecPodsClusterRole;
     rule_ID := "ExecPodsClusterRole";
     rule_Selector := ".rules .apiGroups .resources .verbs";
     rule_Reason := "The Operator SA cluster role has permissions to exec into any pod in the cluster";
     rule_Link := EmptyString;
     rule_Kinds := ["ClusterRole"];
     rule_Points := (-9);
     rule_Advise := 0;
     rule_Weight := 0 |}.

Definition escalateClusterRoleRule : Rule :=
  {| rule_Predicate := EscalateClusterRole;
     rule_ID := "EscalateClusterRole";
     rule_Selector := ".rules .apiGroups .resources .verbs";
     rule_Reason := "The Operator SA cluster role has escalate permissions";
     rule_Link := EmptyString;
     rule_Kinds := ["ClusterRole"];
     rule_Points := (-9);
     rule_Advise := 0;
     rule_Weight := 0 |}.

Definition bindClusterRoleRule : Rule :=
  {| rule_Predicate := BindClusterRole;
     rule_ID := "BindClusterRole";
     rule_Selector := ".rules .apiGroups .resources .verbs";
     rule_Reason := "The Operator SA cluster role has bind permissions";
     rule_Link := EmptyString;
     rule_Kinds := ["ClusterRole"];
     rule_Points := (-9);
     rule_Advise := 0;
     rule_Weight := 0 |}.

Definition impersonateClusterRoleRule : Rule :=
  {| rule_Predicate := ImpersonateClusterRole;
     rule_ID := "ImpersonateClusterRole";
     rule_Selector := ".rules .apiGroups .resources .verbs";
     rule_Reason := "The Operator SA cluster role has impersonate permissions";
     rule_Link := EmptyString;
     rule_Kinds := ["ClusterRole"];
     rule_Points := (-30);
     rule_Advise := 0;
     rule_Weight := 0 |}.

Definition modifyPodLogsClusterRoleRule : Rule :=
  {| rule_Predicate := ModifyPodLogsClusterRole;
     rule_ID := "ModifyPodLogsClusterRole";
     rule_Selector := ".rules .apiGroups .resources .verbs";
     rule_Reason := "The Operator SA cluster role has permissions to modify pod logs";
     rule_Link := EmptyString;
     rule_Kinds := ["ClusterRole"];
     rule_Points := (-1);
     rule_Advise := 0;
     rule_Weight := 0 |}.

Definition NewRuleset : Ruleset :=
  {| rs_Rules :=
       [ defaultNamespaceRule;
         kubesystemNamespaceRule;
         noSecurityContextRule;
         readOnlyRootFilesystemRule;
         runAsNonRootRule;
         runAsUserRule;
         privilegedRule;
         capSysAdminRule;
         capDropAnyRule;
         capDropAllRule;
         allowPrivilegeEscalation;
         clusterAdminRule;
         starAllClusterRoleRule;
         starAllCoreAPIClusterRoleRule;
         starClusterRoleAndBindingsRule;
         secretsClusterRoleRule;
         execPodsClusterRoleRule;
         escalateClusterRoleRule;
         bindClusterRoleRule;
         impersonateClusterRoleRule;
         modifyPodLogsClusterRoleRule ] |}.

(* ================================================================== *)
(** * The copy of ruleset.go that validates

    The repository holds a second copy of ruleset.go.  Its [Run],
    [appendUniqueRule], [containsRule], [eval], [getObjectName] and
    [detectLineBreak] are those above; its catalog has two rules, and its
    [generateReport] validates the resource with kubeval before it runs the
    rules. *)

Module Validating.

Definition defaultNamespaceRule : Rule :=
  {| rule_Predicate := DefaultNamespace;
     rule_ID := "DefaultNamespace";
     rule_Selector := ".metadata .name == kube-system .name == default .namespace == kube-system .namespace == default .subjects";
     rule_Reason := "Operators should be deployed into a dedicated namespace";
     rule_Link := EmptyString;
     rule_Kinds := ["Namespace"; "Deployment"; "ClusterRoleBinding"];
     rule_Points := (-9);
     rule_Advise := 0;
     rule_Weight := 0 |}.

Definition starAllRoleRule : Rule :=
  {| rule_Predicate := StarAllRoleRule;
     rule_ID := "StarAllRoleRule";
     rule_Selector := ".rules .apiGroups .resources .verbs";
     rule_Reason := "The Operator SA role has full permissions on all resources against the Core API Group";
     rule_Link := EmptyString;
     rule_Kinds := ["Role"];
     rule_Points := (-9);
     rule_Advise := 0;
     rule_Weight := 0 |}.

Definition NewRuleset : Ruleset :=
  {| rs_Rules := [ defaultNamespaceRule; starAllRoleRule ] |}.

Definition validationConfig (E : Externals) (fileName schemaDir : string)
  : Config :=
  {| cfg_FileName := fileName;
     cfg_Strict := true;
     cfg_SchemaLocation :=
       if negb (schemaDir =? EmptyString)%string
       then Some ("file://" +++ schemaDir)
       else if negb (Stat_IsNotExist E
                       "/schemas/kubernetes-json-schema/master/master-standalone")
       then Some "file:///schemas"
       else None |}.

(** The body of [for _, result := range results] on [report.Message]. *)
Definition resultMessage (message : string) (result : ValidationResult)
  : string :=
  if (0 <? List.length (vr_Errors result))%nat then
    fold_left (fun message desc => message +++ (desc +++ " "))
              (vr_Errors result) message
  else if (vr_Kind result =? EmptyString)%string then
    message +++ "This resource is invalid, Kubernetes kind not found"
  else message.

Definition validationMessage (results : list ValidationResult) : string :=
  fold_left resultMessage results EmptyString.

Definition generateReport (E : Externals) (rs : Ruleset)
  (sch : Scheduler) (fileName json schemaDir : string) : Report :=
  let report := newReport fileName in
  let report := with_Object report (getObjectName E json) in
  let cfg := validationConfig E fileName schemaDir in
  match kubeval_Validate E json cfg with
  | inr err =>
      if Contains err "404 Not Found"
      then with_Message report "This resource is invalid, unknown schema"
      else with_Message report err
  | inl results =>
      let report := with_Message report (validationMessage results) in
      if (0 <? String.length (Message report))%nat then report
      else fst (evaluate E sch rs json report)
  end.

Definition Run (E : Externals) (rs : Ruleset)
  (scheds : nat -> Scheduler) (fileName fileBytes schemaDir : string)
  : list Report * option error :=
  Run_with E
    (fun i data => generateReport E rs (scheds i) fileName data schemaDir)
    fileBytes.

End Validating.

(* ================================================================== *)
(** * Regular expressions

    [regexp.MustCompile(..).MatchString(s)] is the Go library's.  It is
    modelled on bytes by a matcher with derivatives: [MatchString re s] holds
    when some substring of [s] is in the language of [re].  The classes used
    by package [rules] hold ASCII characters only, so a rune that a negated
    class accepts ends in a byte that the class, read on bytes, accepts. *)

Module Regexp.

Inductive regex : Type :=
| Void
| Eps
| Sym (p : ascii -> bool)
| Cat (r1 r2 : regex)
| Alt (r1 r2 : regex)
| Star (r : regex).

Fixpoint nullable (r : regex) : bool :=
  match r with
  | Void => false
  | Eps => true
  | Sym _ => false
  | Cat r1 r2 => nullable r1 && nullable r2
  | Alt r1 r2 => nullable r1 || nullable r2
  | Star _ => true
  end.

Fixpoint deriv (c : ascii) (r : regex) : regex :=
  match r with
  | Void => Void
  | Eps => Void
  | Sym p => if p c then Eps else Void
  | Cat r1 r2 =>
      if nullable r1
      then Alt (Cat (deriv c r1) r2) (deriv c r2)
      else Cat (deriv c r1) r2
  | Alt r1 r2 => Alt (deriv c r1) (deriv c r2)
  | Star r1 => Cat (deriv c r1) (Star r1)
  end.

Fixpoint matches (r : regex) (s : string) : bool :=
  match s with
  | EmptyString => nullable r
  | String c s' => matches (deriv c r) s'
  end.

(** Any byte; one given byte; [r?]; the bytes of a word one after another. *)
Definition any : regex := Sym (fun _ => true).
Definition Chr (c : ascii) : regex := Sym (Ascii.eqb c).
Definition Opt (r : regex) : regex := Alt r Eps.

Fixpoint Lit (w : string) : regex :=
  match w with
  | EmptyString => Eps
  | String c w' => Cat (Chr c) (Lit w')
  end.

(** The search is not anchored. *)
Definition MatchString (re : regex) (s : string) : bool :=
  matches (Cat (Star any) (Cat re (Star any))) s.

(** The language of an expression. *)
Inductive lang : regex -> string -> Prop :=
| lang_Eps : lang Eps EmptyString
| lang_Sym p c : p c = true -> lang (Sym p) (String c EmptyString)
| lang_Cat r1 r2 s1 s2 :
    lang r1 s1 -> lang r2 s2 -> lang (Cat r1 r2) (s1 +++ s2)
| lang_Alt_l r1 r2 s : lang r1 s -> lang (Alt r1 r2) s
| lang_Alt_r r1 r2 s : lang r2 s -> lang (Alt r1 r2) s
| lang_Star_nil r : lang (Star r) EmptyString
| lang_Star_app r s1 s2 :
    lang r s1 -> lang (Star r) s2 -> lang (Star r) (s1 +++ s2).

End Regexp.

(* ================================================================== *)
(** * Package rules

    The predicates of pkg/rules that are in the repository next to the
    engine.  Each reads the document with gojsonq and tests how [fmt] prints
    what it finds; the two library calls are the fields of [Queries]. *)

Record Queries : Type := mkQueries {
  (** [fmt.Sprintf("%v", gojsonq.New().Reader(..).From(node))] *)
  show_From : string -> string -> string;
  (** [gojsonq.New().Reader(..).From(node).Only(key)]: [None] for nil,
      otherwise the value as [fmt.Sprintf("%v", _)] prints it *)
  From_Only : string -> string -> string -> option string
}.

(** [fmt.Sprintf("%v", v)] for an interface value. *)
Definition Sprintf_v (v : option string) : string :=
  match v with
  | None => "<nil>"
  | Some text => text
  end.

Module Rules.

(** [\w] of Go's regexp: an ASCII letter, a digit or the underscore. *)
Definition word_char (c : ascii) : bool :=
  let n := N_of_ascii c in
  ((48 <=? n) && (n <=? 57) || (65 <=? n) && (n <=? 90) ||
   (97 <=? n) && (n <=? 122) || (n =? 95))%N.

(** The class [[^-_\.\w]]. *)
Definition outside (c : ascii) : bool :=
  negb (Ascii.eqb c "-" || Ascii.eqb c "_" || Ascii.eqb c "." || word_char c).

(** [:?[^-_\.\w](cluster):?[-](admin):?[^-_\.\w]] *)
Definition reCRB : Regexp.regex :=
  Regexp.Cat (Regexp.Opt (Regexp.Chr ":"))
  (Regexp.Cat (Regexp.Sym outside)
  (Regexp.Cat (Regexp.Lit "cluster")
  (Regexp.Cat (Regexp.Opt (Regexp.Chr ":"))
  (Regexp.Cat (Regexp.Chr "-")
  (Regexp.Cat (Regexp.Lit "admin")
  (Regexp.Cat (Regexp.Opt (Regexp.Chr ":"))
              (Regexp.Sym outside))))))).

Definition ClusterAdmin (Q : Queries) (json : string) : Z :=
  let rbac := 0 in
  let jqCRB := show_From Q json "roleRef.name" in
  let rbac := if Regexp.MatchString reCRB jqCRB then rbac + 1 else rbac in
  rbac.

Definition CustomResourceClusterRole (Q : Queries) (json : string) : Z :=
  let rbac := 0 in
  let jqAPI := Sprintf_v (From_Only Q json "rules" "apiGroups") in
  let jqResources := Sprintf_v (From_Only Q json "rules" "resources") in
  let jqVerbs := Sprintf_v (From_Only Q json "rules" "verbs") in
  if Contains jqAPI "[apiextensions.k8s.io]" &&
     Contains jqResources "[customresourcedefinitions]" &&
     Contains jqVerbs "*"
  then rbac + 1
  else if Contains jqAPI "[apiextensions.k8s.io]" &&
          Contains jqResources "[customresourcedefinitions]" &&
          Contains jqVerbs "create"
  then rbac + 1
  else if Contains jqAPI "[apiextensions.k8s.io]" &&
          Contains jqResources "[customresourcedefinitions]" &&
          Contains jqVerbs "patch"
  then rbac + 1
  else if Contains jqAPI "[apiextensions.k8s.io]" &&
          Contains jqResources "[customresourcedefinitions]" &&
          Contains jqVerbs "update"
  then rbac + 1
  else if Contains jqAPI "[apiextensions.k8s.io]" &&
          Contains jqResources "[customresourcedefinitions]" &&
          Contains jqVerbs "delete"
  then rbac + 1
  else if Contains jqAPI "[apiextensions.k8s.io]" &&
          Contains jqResources "[customresourcedefinitions]" &&
          Contains jqVerbs "deletecollection"
  then rbac + 1
  else rbac.

Definition ExecPodsClusterRole (Q : Queries) (json : string) : Z :=
  let rbac := 0 in
  let jqAPI := Sprintf_v (From_Only Q json "rules" "apiGroups") in
  let jqResources := Sprintf_v (From_Only Q json "rules" "resources") in
  let jqVerbs := Sprintf_v (From_Only Q json "rules" "verbs") in
  if Contains jqAPI "[]" && Contains jqResources "pods" &&
     Contains jqVerbs "*"
  then rbac + 1
  else if Contains jqAPI "[]" && Contains jqResources "pods" &&
          Contains jqVerbs "get" && Contains jqVerbs "create"
  then rbac + 1
  else if Contains jqAPI "[]" && Contains jqResources "pods/exec" &&
          Contains jqVerbs "*"
  then rbac + 1
  else if Contains jqAPI "[]" && Contains jqResources "pods/exec" &&
          Contains jqVerbs "get" && Contains jqVerbs "create"
  then rbac + 1
  else rbac.

Definition RemoveEventsClusterRole (Q : Queries) (json : string) : Z :=
  let rbac := 0 in
  let jqAPI := Sprintf_v (From_Only Q json "rules" "apiGroups") in
  let jqResources := Sprintf_v (From_Only Q json "rules" "resources") in
  let jqVerbs := Sprintf_v (From_Only Q json "rules" "verbs") in
  if Contains jqAPI "[]" && Contains jqResources "[events]" &&
     Contains jqVerbs "*"
  then rbac + 1
  else if Contains jqAPI "[]" && Contains jqResources "[events]" &&
          Contains jqVerbs "delete" && Contains jqVerbs "deletecollection"
  then rbac + 1
  else rbac.

Definition StarAllCoreAPIClusterRole (Q : Queries) (json : string) : Z :=
  let rbac := 0 in
  let jqAPI := From_Only Q json "rules" "apiGroups" in
  let jqResources := From_Only Q json "rules" "resources" in
  let jqVerbs := From_Only Q json "rules" "verbs" in
  if match jqAPI with None => true | Some _ => false end ||
     Contains (Sprintf_v jqAPI) "[]" &&
     Contains (Sprintf_v jqResources) "*" &&
     Contains (Sprintf_v jqVerbs) "*"
  then rbac + 1
  else rbac.

End Rules.

(** What gojsonq finds in a ClusterRole with one rule, of which [fmt] prints
    the API groups, resources and verbs as given. *)
Definition cluster_role (apiGroups resources verbs : string) : Queries :=
  {| show_From := fun _ _ => EmptyString;
     From_Only := fun _ node key =>
       if (node =? "rules")%string then
         if (key =? "apiGroups")%string then Some apiGroups
         else if (key =? "resources")%string then Some resources
         else if (key =? "verbs")%string then Some verbs
         else None
       else None |}.

(** What gojsonq prints for a document with the given content. *)
Definition shown_as (content : string) : Queries :=
  {| show_From := fun _ _ => content;
     From_Only := fun _ _ _ => None |}.

(* ================================================================== *)
(** * Documents for examples

    Collaborators for a document that every library call accepts: its kind
    is [kind], the predicate of the rule with ID [id] finds [count id]
    matches, YAML conversion is the identity, no input is JSON already and
    the validator answers [validation]. *)

(** Modelled from the spec: [Rule.Eval], which is declared with [Rule] and
    not in ruleset.go.  A rule applies when the kind of the document is among
    the kinds of the rule; it then returns the match count of its predicate,
    and otherwise the not-applicable signal. *)
Definition kind_filter (kind : option string) (count : string -> Z)
  (rule : Rule) : Z * option error :=
  match kind with
  | Some k =>
      if existsb (String.eqb k) (rule_Kinds rule)
      then (count (rule_ID rule), None)
      else (0, Some (NotSupportedError k))
  | None => (0, Some (NotSupportedError EmptyString))
  end.

Definition document (kind : option string) (count : string -> Z)
  (validation : list ValidationResult + string) : Externals :=
  {| json_Valid := fun _ => false;
     YAMLToJSON := fun doc => inl doc;
     GOOS := "linux";
     jq_Errors := fun _ => O;
     jq_Get := fun path _ => if (path =? "kind")%string then kind else None;
     Rule_Eval := fun rule _ => kind_filter kind count rule;
     Stat_IsNotExist := fun _ => true;
     kubeval_Validate := fun _ _ => validation |}.

(** A Pod on which no predicate finds anything. *)
Definition bare_pod : Externals :=
  document (Some "Pod") (fun _ => 0) (inl [mkValidationResult [] "Pod"]).

(** A Pod with one privileged container that runs as non-root. *)
Definition privileged_pod : Externals :=
  document (Some "Pod")
    (fun id => if (id =? "Privileged")%string then 1
               else if (id =? "RunAsNonRoot")%string then 1 else 0)
    (inl [mkValidationResult [] "Pod"]).

(** The JSON text of such a Pod, for the examples that need some bytes. *)
Definition pod_json : string :=
  "{" +++ dquote +++ "kind" +++ dquote +++ ":" +++
  dquote +++ "Pod" +++ dquote +++ "}".

(** A document without a kind. *)
Definition kindless : Externals :=
  document None (fun _ => 0) (inl [mkValidationResult [] EmptyString]).

(* ================================================================== *)
(** * Vocabulary of the properties *)

(** The sum of the points of a list of results, in [Z] and as the Go loop
    [for _, r := range l { sum += r.Points }] computes it. *)
Definition total_Points (l : list RuleRef) : Z :=
  fold_right Z.add 0 (map Points l).

Definition sum_Points (l : list RuleRef) : Z :=
  fold_left int_add (map Points l) 0.

(** [before a b]: the comparator does not put [b] in front of [a]. *)
Definition before (a b : RuleRef) : Prop := Less b a = false.

(** [precedes a b], on the two keys: [a] has the larger weight, or the same
    weight and a rule ID that is not greater. *)
Definition precedes (a b : RuleRef) : Prop :=
  Weight a > Weight b \/
  (Weight a = Weight b /\ String.leb (ID a) (ID b) = true).

(** A list in priority order: every entry precedes all the later ones. *)
Definition in_priority_order (l : list RuleRef) : Prop :=
  StronglySorted precedes l.

(** The four rows of the classification. *)
Definition is_passed (r : RuleRef) : bool := (0 <? Containers r) && (0 <=? Points r).
Definition is_critical (r : RuleRef) : bool := (0 <? Containers r) && (Points r <? 0).
Definition is_advise (r : RuleRef) : bool := negb (0 <? Containers r) && (0 <=? Points r).
Definition is_unrecorded (r : RuleRef) : bool := negb (0 <? Containers r) && (Points r <? 0).
Definition is_matched (r : RuleRef) : bool := 0 <? Containers r.

(** [report.Rules] after the loop: the channel contents without repeats. *)
Definition unique_results (ch : list RuleRef) : list RuleRef :=
  fold_left appendUniqueRule ch [].

(** The sum of the absolute values of the points of a catalog. *)
Definition catalog_weight (rules : list Rule) : Z :=
  fold_right Z.add 0 (map (fun r => Z.abs (rule_Points r)) rules).

Definition abs_Points (l : list RuleRef) : Z :=
  fold_right Z.add 0 (map (fun r => Z.abs (Points r)) l).

(** The score is the sum, in [int] arithmetic, of the points in Critical and
    Passed, and no entry of Advise is among the entries summed. *)
Definition score_is_sum (r : Report) : Prop :=
  Score r = sum_Points (Critical (Scoring r) ++ Passed (Scoring r)) /\
  Forall (fun a => ~ In a (Critical (Scoring r) ++ Passed (Scoring r)))
         (Advise (Scoring r)).

(** The same with the sum taken in [Z]. *)
Definition score_is_exact_sum (r : Report) : Prop :=
  Score r = total_Points (Critical (Scoring r) ++ Passed (Scoring r)).

Definition buckets_in_priority_order (r : Report) : Prop :=
  in_priority_order (Critical (Scoring r)) /\
  in_priority_order (Passed (Scoring r)) /\
  in_priority_order (Advise (Scoring r)).

(** Rule IDs without repeats, decided. *)
Fixpoint distinct (ids : list string) : bool :=
  match ids with
  | [] => true
  | id :: ids' => negb (existsb (String.eqb id) ids') && distinct ids'
  end.

(** The identity as the specification words it: <kind>/<name>.<namespace>
    with a default for each of the three parts. *)
Definition identity_with_defaults (E : Externals) (json : string) : string :=
  let queryable := (jq_Errors E json =? 0)%nat in
  let part (path default : string) :=
    if queryable then
      match jq_Get E path json with Some v => v | None => default end
    else default in
  part "kind" "Unknown" +++ "/" +++ part "metadata.name" "undefined" +++
  "." +++ part "metadata.namespace" "default".

(** The document has a kind that can be read. *)
Definition has_kind (E : Externals) (json : string) : bool :=
  (jq_Errors E json =? 0)%nat &&
  match jq_Get E "kind" json with Some _ => true | None => false end.

(** A validation result that stops the evaluation: it has errors, or it has
    no kind. *)
Definition rejected (result : ValidationResult) : bool :=
  (0 <? List.length (vr_Errors result))%nat ||
  (vr_Kind result =? EmptyString)%string.

(** The descriptions, each followed by one space. *)
Fixpoint spaced (descs : list string) : string :=
  match descs with
  | [] => EmptyString
  | desc :: descs' => desc +++ " " +++ spaced descs'
  end.

(** What one result adds to the message. *)
Definition result_text (result : ValidationResult) : string :=
  match vr_Errors result with
  | [] =>
      if (vr_Kind result =? EmptyString)%string
      then "This resource is invalid, Kubernetes kind not found"
      else EmptyString
  | descs => spaced descs
  end.

Fixpoint validation_text (results : list ValidationResult) : string :=
  match results with
  | [] => EmptyString
  | result :: results' => result_text result +++ validation_text results'
  end.

(** The message for an error of the validator. *)
Definition validator_error_text (err : string) : string :=
  if Contains err "404 Not Found"
  then "This resource is invalid, unknown schema"
  else err.

(** The report of an evaluation that stopped before the rules were run. *)
Definition stopped_report (E : Externals) (fileName json message : string)
  : Report :=
  {| Object := getObjectName E json; FileName := fileName;
     Message := message; Score := 0; Valid := false; Rules := [];
     Scoring := {| Advise := []; Passed := []; Critical := [] |} |}.

(** The same collaborators with another validator. *)
Definition with_validator (E : Externals)
  (validate : string -> Config -> list ValidationResult + string) : Externals :=
  {| json_Valid := json_Valid E; YAMLToJSON := YAMLToJSON E; GOOS := GOOS E;
     jq_Errors := jq_Errors E; jq_Get := jq_Get E; Rule_Eval := Rule_Eval E;
     Stat_IsNotExist := Stat_IsNotExist E; kubeval_Validate := validate |}.

(** A Pod the validator fails on. *)
Definition unvalidated_pod : Externals :=
  document (Some "Pod") (fun _ => 0) (inr "schema validation failed").

(** A Pod with two field errors, a Pod of a schema that is not found, and a
    document whose kind the validator cannot resolve. *)
Definition invalid_pod : Externals :=
  document (Some "Pod") (fun _ => 0)
    (inl [mkValidationResult
            ["spec: Required"; "metadata: Invalid type"] "Pod"]).

Definition unknown_schema_pod : Externals :=
  document (Some "Pod") (fun _ => 0)
    (inr "Could not read schema from HTTP, response status is 404 Not Found").

(** The test [Run] makes on a trimmed fragment: empty, or just a header. *)
Definition is_blank (doc : string) : bool :=
  (String.length doc =? 0)%nat ||
  ((String.length doc =? 3)%nat && (doc =? "---")%string).

Definition skipped (d : string) : bool := is_blank (TrimSpace d).

(** The separator [Run] splits on. *)
Definition separator (E : Externals) (fileBytes : string) : string :=
  detectLineBreak E fileBytes +++ "---" +++ detectLineBreak E fileBytes.

(** A fragment [Run] gets past: it is skipped, or it converts to JSON. *)
Definition passes (E : Externals) (d : string) : bool :=
  skipped d ||
  match YAMLToJSON E (TrimSpace d) with inl _ => true | inr _ => false end.

(** The reports of the fragments [frags], the first of which has index [i]:
    one for each fragment that is not skipped and converts, in the order of
    the fragments. *)
Fixpoint built (E : Externals) (generate : nat -> string -> Report)
  (i : nat) (frags : list string) : list Report :=
  match frags with
  | [] => []
  | d :: frags' =>
      if skipped d then built E generate (S i) frags'
      else
        match YAMLToJSON E (TrimSpace d) with
        | inl data => generate i data :: built E generate (S i) frags'
        | inr _ => built E generate (S i) frags'
        end
  end.

(** The same collaborators with another YAML converter. *)
Definition with_yaml (E : Externals) (convert : string -> string + string)
  : Externals :=
  {| json_Valid := json_Valid E; YAMLToJSON := convert; GOOS := GOOS E;
     jq_Errors := jq_Errors E; jq_Get := jq_Get E; Rule_Eval := Rule_Eval E;
     Stat_IsNotExist := Stat_IsNotExist E;
     kubeval_Validate := kubeval_Validate E |}.

(** Pods, where the converter fails on the fragment "bad: [". *)
Definition pods_and_bad_yaml : Externals :=
  with_yaml bare_pod
    (fun doc => if (doc =? "bad: [")%string
                then inr "yaml: did not find expected node content"
                else inl doc).

(** The two inputs the specification names, and a stream of three fragments
    of which the second does not convert. *)
Definition only_separator : string := "---".
Definition trailing_separator : string := "doc1" +++ LF +++ "---" +++ LF.
Definition bad_second_fragment : string :=
  "kind: Pod" +++ LF +++ "---" +++ LF +++ "bad: [" +++ LF +++ "---" +++ LF +++
  "kind: Pod".

(** Two reports that differ at most in the order of Rules. *)
Definition same_but_Rules_order (r1 r2 : Report) : Prop :=
  Object r1 = Object r2 /\
  FileName r1 = FileName r2 /\
  Message r1 = Message r2 /\
  Score r1 = Score r2 /\
  Valid r1 = Valid r2 /\
  Scoring r1 = Scoring r2 /\
  Permutation (Rules r1) (Rules r2).

(** The result [eval] sends for [rule] when [rule.Eval] counts [c]. *)
Definition result_of (rule : Rule) (c : Z) : RuleRef :=
  {| Containers := c;
     ID := rule_ID rule;
     Points := rule_Points rule;
     Reason := rule_Reason rule;
     Selector := rule_Selector rule;
     Weight := rule_Weight rule;
     Link := rule_Link rule |}.

(** The error of [rule.Eval] is the not-applicable signal. *)
Definition not_supported (err : option error) : bool :=
  match err with
  | Some (NotSupportedError _) => true
  | _ => false
  end.

(** [rule] applies to the document: [rule.Eval] does not answer with the
    not-applicable signal. *)
Definition applies (E : Externals) (json : string) (rule : Rule) : bool :=
  negb (not_supported (snd (Rule_Eval E rule json))).

(** The most and the least a catalog can score: the sums of its positive
    and of its negative points. *)
Definition gain (rules : list Rule) : Z :=
  fold_right Z.add 0 (map (fun r => Z.max 0 (rule_Points r)) rules).

Definition loss (rules : list Rule) : Z :=
  fold_right Z.add 0 (map (fun r => Z.min 0 (rule_Points r)) rules).

Definition empty_scoring : RuleScoring :=
  {| Advise := []; Passed := []; Critical := [] |}.

(** A list of results in strictly ascending order of rule ID. *)
Definition ascending_by_ID (l : list RuleRef) : Prop :=
  StronglySorted (fun a b => String.ltb (ID a) (ID b) = true) l.

(** Two results for the tests of [appendUniqueRule]. *)
Definition some_result : RuleRef := result_of privilegedRule 1.
Definition other_result : RuleRef := result_of runAsNonRootRule 0.

(** An input with two documents and Windows line ends. *)
Definition crlf_documents : string :=
  "kind: Pod" +++ CR +++ LF +++ "---" +++ CR +++ LF +++ "kind: Role".

(** The report of a document to which no rule of the catalog applies. *)
Definition unsupported_report (E : Externals) (fileName json : string)
  : Report :=
  {| Object := getObjectName E json; FileName := fileName;
     Message := "This resource kind is not supported by badrobot";
     Score := 0; Valid := true; Rules := [];
     Scoring := empty_scoring |}.

(** The sums of the positive and of the negative points of some results. *)
Definition results_gain (l : list RuleRef) : Z :=
  fold_right Z.add 0 (map (fun r => Z.max 0 (Points r)) l).

Definition results_loss (l : list RuleRef) : Z :=
  fold_right Z.add 0 (map (fun r => Z.min 0 (Points r)) l).

(** Two reports that differ at most in the order of Rules and in the order
    inside the buckets. *)
Definition same_up_to_order (r1 r2 : Report) : Prop :=
  Object r1 = Object r2 /\
  FileName r1 = FileName r2 /\
  Message r1 = Message r2 /\
  Score r1 = Score r2 /\
  Valid r1 = Valid r2 /\
  Permutation (Rules r1) (Rules r2) /\
  Permutation (Critical (Scoring r1)) (Critical (Scoring r2)) /\
  Permutation (Passed (Scoring r1)) (Passed (Scoring r2)) /\
  Permutation (Advise (Scoring r1)) (Advise (Scoring r2)).

(** The text names the role cluster-admin: it holds "cluster-admin" or
    "cluster:-admin" between two characters that are neither a letter, a
    digit, an underscore, a hyphen nor a dot. *)
Definition names_cluster_admin (text : string) : Prop :=
  exists pre c1 mid c2 post,
    text = pre +++ String c1 ("cluster" +++ mid +++ "-admin" +++ String c2 post) /\
    (mid = EmptyString \/ mid = ":") /\
    Rules.outside c1 = true /\ Rules.outside c2 = true.

(** The bytes of [s] are ASCII blanks: tab, line feed, vertical tab, form
    feed, carriage return or space. *)
Fixpoint only_blanks (s : string) : bool :=
  match s with
  | EmptyString => true
  | String c s' => space_rune [N_of_ascii c] && only_blanks s'
  end.

(** The validator accepts the document: no error, and no result with
    errors or without kind. *)
Definition accepted (E : Externals) (fileName json schemaDir : string)
  : bool :=
  match kubeval_Validate E json
          (Validating.validationConfig E fileName schemaDir) with
  | inl results => negb (existsb rejected results)
  | inr _ => false
  end.

(* ================================================================== *)
(** * The model on concrete inputs *)

Example Split_two_documents :
  Split ("doc1" +++ LF +++ "---" +++ LF +++ "doc2") (LF +++ "---" +++ LF) =
  ["doc1"; "doc2"].
Proof. reflexivity. Qed.

Example Split_trailing_separator :
  Split trailing_separator (LF +++ "---" +++ LF) = ["doc1"; EmptyString].
Proof. reflexivity. Qed.

Example Split_without_separator :
  Split only_separator (LF +++ "---" +++ LF) = ["---"].
Proof. reflexivity. Qed.

Example TrimSpace_blanks :
  map TrimSpace [" kind: Pod" +++ LF; LF +++ CR +++ " "; "---" +++ LF] =
  ["kind: Pod"; EmptyString; "---"].
Proof. reflexivity. Qed.

Example TrimSpace_no_break_space :
  TrimSpace (String "194"%char (String "160"%char "a b")) = "a b".
Proof. reflexivity. Qed.

Example int_add_wraps : int_add (2 ^ 63 - 1) 1 = - 2 ^ 63.
Proof. reflexivity. Qed.

Example privileged_pod_report :
  let r := generateReport privileged_pod NewRuleset lifo
             "pod.json" pod_json EmptyString in
  Object r = "Pod/undefined.default" /\
  Score r = -29 /\
  Message r = "Failed with a score of -29 points" /\
  map ID (Critical (Scoring r)) = ["Privileged"] /\
  map ID (Passed (Scoring r)) = ["RunAsNonRoot"] /\
  map ID (Advise (Scoring r)) =
    ["CapDropAll"; "CapDropAny"; "ReadOnlyRootFilesystem"; "RunAsUser"].
Proof. vm_compute. repeat split; reflexivity. Qed.

Example kindless_report :
  let r := generateReport kindless NewRuleset fifo "x.json" "{}" EmptyString in
  Rules r = [] /\ Score r = 0 /\
  Message r = "This resource kind is not supported by badrobot".
Proof. vm_compute. repeat split; reflexivity. Qed.

Example Run_two_documents :
  exists r1 r2,
    Run bare_pod NewRuleset (fun _ => fifo) "pods.yaml"
        ("kind: Pod" +++ LF +++ "---" +++ LF +++ "kind: Pod") EmptyString =
    ([r1; r2], None).
Proof. do 2 eexists. vm_compute. reflexivity. Qed.

(* ================================================================== *)
(** * [bytes.TrimSpace] runs to the end *)

Section Trimming.

Lemma leading_space_nil : leading_space [] = O.
Proof. reflexivity. Qed.

Lemma trailing_space_nil : trailing_space [] = O.
Proof. reflexivity. Qed.

Lemma skipn_shorter (n : nat) (l : list N) :
  n <> O -> l <> [] -> (List.length (skipn n l) < List.length l)%nat.
Proof.
  intros Hn Hl. rewrite length_skipn.
  destruct l; [congruence|]. cbn [List.length]. lia.
Qed.

(** With as many rounds as there are bytes, no white-space rune is left at
    the front. *)
Lemma trim_left_done fuel : forall l,
  (List.length l <= fuel)%nat -> leading_space (trim_left fuel l) = O.
Proof.
  induction fuel as [|fuel IH]; intros l Hl; cbn [trim_left].
  - destruct l; [reflexivity | simpl in Hl; lia].
  - destruct (leading_space l) as [|n] eqn:Hn; [exact Hn|].
    apply IH.
    assert (l <> []) by (intros ->; discriminate).
    pose proof (skipn_shorter (S n) l (Nat.neq_succ_0 n) H). lia.
Qed.

Lemma trim_right_done fuel : forall r,
  (List.length r <= fuel)%nat -> trailing_space (trim_right fuel r) = O.
Proof.
  induction fuel as [|fuel IH]; intros r Hr; cbn [trim_right].
  - destruct r; [reflexivity | simpl in Hr; lia].
  - destruct (trailing_space r) as [|n] eqn:Hn; [exact Hn|].
    apply IH.
    assert (r <> []) by (intros ->; discriminate).
    pose proof (skipn_shorter (S n) r (Nat.neq_succ_0 n) H). lia.
Qed.

End Trimming.

(* ================================================================== *)
(** * Arithmetic of [int] *)

Section IntFacts.

Lemma int_wrap_small z : in_range z -> int_wrap z = z.
Proof.
  unfold in_range, int_wrap; intros H.
  rewrite Z.mod_small; lia.
Qed.

Lemma int_wrap_add_l a b : int_wrap (int_wrap a + b) = int_wrap (a + b).
Proof.
  unfold int_wrap.
  replace ((a + 2 ^ 63) mod 2 ^ 64 - 2 ^ 63 + b + 2 ^ 63)
    with ((a + 2 ^ 63) mod 2 ^ 64 + b) by lia.
  rewrite Zplus_mod_idemp_l.
  f_equal. f_equal. lia.
Qed.

Lemma int_wrap_0 : int_wrap 0 = 0.
Proof. reflexivity. Qed.

End IntFacts.

Section SumFacts.

Lemma total_Points_app l1 l2 :
  total_Points (l1 ++ l2) = total_Points l1 + total_Points l2.
Proof.
  unfold total_Points. induction l1 as [|a l1 IH]; simpl; [reflexivity|].
  rewrite IH. lia.
Qed.

Lemma total_Points_perm l1 l2 :
  Permutation l1 l2 -> total_Points l1 = total_Points l2.
Proof.
  unfold total_Points.
  induction 1; simpl; lia.
Qed.

Lemma fold_int_add l : forall s,
  fold_left int_add (map Points l) (int_wrap s) = int_wrap (s + total_Points l).
Proof.
  unfold total_Points.
  induction l as [|a l IH]; intros s; simpl.
  - f_equal. lia.
  - unfold int_add at 2. rewrite int_wrap_add_l, IH. f_equal. lia.
Qed.

Lemma sum_Points_wrap l : sum_Points l = int_wrap (total_Points l).
Proof.
  unfold sum_Points. rewrite <- int_wrap_0 at 1.
  rewrite fold_int_add. reflexivity.
Qed.

End SumFacts.

(* ================================================================== *)
(** * Structural equality and the comparator *)

Section Order.

Lemma DeepEqual_eq a b : DeepEqual a b = true <-> a = b.
Proof.
  unfold DeepEqual. split.
  - intros H.
    repeat (apply andb_true_iff in H; destruct H as [H ?]).
    destruct a, b; simpl in *.
    repeat match goal with
           | h : (_ =? _) = true |- _ => apply Z.eqb_eq in h
           | h : (_ =? _)%string = true |- _ => apply String.eqb_eq in h
           end.
    subst. reflexivity.
  - intros ->. rewrite !Z.eqb_refl, !String.eqb_refl. reflexivity.
Qed.

Lemma containsRule_In rules r : containsRule rules r = true <-> In r rules.
Proof.
  induction rules as [|x rules IH]; simpl.
  - split; [discriminate | tauto].
  - destruct (DeepEqual x r) eqn:D.
    + apply DeepEqual_eq in D. tauto.
    + rewrite IH. split; [tauto|].
      intros [->|H]; [|exact H].
      assert (DeepEqual r r = true) by (apply DeepEqual_eq; reflexivity).
      congruence.
Qed.

Lemma string_ltb_lt s t : String.ltb s t = true <-> String_as_OT.lt s t.
Proof.
  unfold String.ltb. rewrite <- String_as_OT.cmp_lt. unfold String_as_OT.cmp.
  destruct (String.compare s t); split; congruence.
Qed.

Lemma string_ltb_irrefl s : String.ltb s s = false.
Proof.
  unfold String.ltb.
  assert (H : String.compare s s = Eq) by (apply String_as_OT.cmp_eq; reflexivity).
  rewrite H. reflexivity.
Qed.

Lemma string_ltb_trans s t u :
  String.ltb s t = true -> String.ltb t u = true -> String.ltb s u = true.
Proof.
  rewrite !string_ltb_lt. apply String_as_OT.lt_trans.
Qed.

Lemma string_ltb_total s t :
  String.ltb s t = false -> String.ltb t s = false -> s = t.
Proof.
  unfold String.ltb. rewrite (String.compare_antisym s t).
  destruct (String.compare t s) eqn:C; simpl; try discriminate.
  intros _ _. apply String.compare_eq_iff in C. congruence.
Qed.

Lemma string_ltb_asym s t : String.ltb s t = true -> String.ltb t s = false.
Proof.
  intros H. destruct (String.ltb t s) eqn:H'; [|reflexivity].
  pose proof (string_ltb_trans _ _ _ H H') as K.
  rewrite string_ltb_irrefl in K. discriminate.
Qed.

(** [Less] as a proposition on the two keys. *)
Lemma Less_spec a b :
  Less a b = true <->
  Weight b < Weight a \/ (Weight a = Weight b /\ String.ltb (ID a) (ID b) = true).
Proof.
  unfold Less.
  rewrite orb_true_iff, andb_true_iff, Z.ltb_lt, Z.eqb_eq. reflexivity.
Qed.

Lemma Less_false a b :
  Less a b = false <->
  Weight a < Weight b \/ (Weight a = Weight b /\ String.ltb (ID a) (ID b) = false).
Proof.
  split.
  - intros H.
    destruct (Z.lt_trichotomy (Weight a) (Weight b)) as [L|[L|L]]; [tauto| |].
    + right. split; [exact L|].
      destruct (String.ltb (ID a) (ID b)) eqn:S; [|reflexivity].
      assert (Less a b = true) by (apply Less_spec; tauto). congruence.
    + assert (Less a b = true) by (apply Less_spec; tauto). congruence.
  - intros H. destruct (Less a b) eqn:L; [|reflexivity].
    apply Less_spec in L. destruct H as [H|[H1 H2]], L as [L|[L1 L2]];
      try lia; congruence.
Qed.

Lemma Less_asym a b : Less a b = true -> Less b a = false.
Proof.
  rewrite Less_spec, Less_false. intros [H|[H1 H2]]; [tauto|].
  right. split; [congruence|]. apply string_ltb_asym; exact H2.
Qed.

(** What [sort.Sort] needs of [Less]: incomparability is transitive. *)
Lemma Less_false_trans a b c :
  Less a b = false -> Less b c = false -> Less a c = false.
Proof.
  rewrite !Less_false.
  intros [H|[H1 H2]] [K|[K1 K2]]; try (left; lia).
  right. split; [congruence|].
  destruct (String.ltb (ID a) (ID c)) eqn:S; [|reflexivity].
  destruct (String.ltb (ID b) (ID a)) eqn:T.
  - pose proof (string_ltb_trans _ _ _ T S). congruence.
  - pose proof (string_ltb_total _ _ H2 T) as Q. rewrite Q in S. congruence.
Qed.

Lemma Less_total a b :
  Less a b = false -> Less b a = false -> Weight a = Weight b /\ ID a = ID b.
Proof.
  rewrite !Less_false.
  intros [H|[H1 H2]] [K|[K1 K2]]; try lia.
  split; [exact H1|]. apply string_ltb_total; assumption.
Qed.

Lemma string_leb_ltb s t : String.leb s t = negb (String.ltb t s).
Proof.
  unfold String.leb, String.ltb. rewrite (String.compare_antisym s t).
  destruct (String.compare t s); reflexivity.
Qed.

(** The comparator and the order on the keys say the same. *)
Lemma before_precedes a b : before a b <-> precedes a b.
Proof.
  unfold before, precedes. rewrite Less_false, string_leb_ltb, negb_true_iff.
  split; intros [H|[H1 H2]]; try (left; lia); right; split; auto.
Qed.

End Order.

(* ================================================================== *)
(** * [sort.Sort] returns its input in priority order *)

Section Sorting.

Lemma insert_back_perm x done : Permutation (insert_back x done) (x :: done).
Proof.
  induction done as [|y done IH]; simpl.
  - apply Permutation_refl.
  - destruct (Less x y).
    + eapply perm_trans; [apply perm_skip, IH | apply perm_swap].
    + apply Permutation_refl.
Qed.

Lemma insert_back_sorted x done :
  StronglySorted (fun a b => before b a) done ->
  StronglySorted (fun a b => before b a) (insert_back x done).
Proof.
  unfold before.
  induction 1 as [|y done Hs IH Hy]; simpl.
  - repeat constructor.
  - destruct (Less x y) eqn:L.
    + constructor; [exact IH|].
      eapply Permutation_Forall;
        [apply Permutation_sym, insert_back_perm|].
      constructor; [apply Less_asym; exact L | exact Hy].
    + constructor; [constructor; assumption|].
      constructor; [exact L|].
      eapply Forall_impl; [|exact Hy].
      intros z Hz. eapply Less_false_trans; eassumption.
Qed.

Lemma insertion_perm data : forall done,
  Permutation (fold_left (fun done x => insert_back x done) data done)
              (data ++ done).
Proof.
  induction data as [|x data IH]; intros done; simpl.
  - apply Permutation_refl.
  - eapply perm_trans; [apply IH|].
    eapply perm_trans; [apply Permutation_app_head, insert_back_perm|].
    apply Permutation_sym, Permutation_middle.
Qed.

Lemma insertion_sorted data : forall done,
  StronglySorted (fun a b => before b a) done ->
  StronglySorted (fun a b => before b a)
    (fold_left (fun done x => insert_back x done) data done).
Proof.
  induction data as [|x data IH]; intros done H; simpl.
  - exact H.
  - apply IH, insert_back_sorted, H.
Qed.

Lemma StronglySorted_app_one (R : RuleRef -> RuleRef -> Prop) l x :
  StronglySorted R l -> Forall (fun y => R y x) l ->
  StronglySorted R (l ++ [x]).
Proof.
  induction 1 as [|y l Hs IH Hy]; intros F; simpl.
  - repeat constructor.
  - inversion F; subst. constructor; [apply IH; assumption|].
    apply Forall_app. split; [exact Hy | repeat constructor; assumption].
Qed.

Lemma StronglySorted_rev (R : RuleRef -> RuleRef -> Prop) l :
  StronglySorted (fun a b => R b a) l -> StronglySorted R (rev l).
Proof.
  induction 1 as [|y l Hs IH Hy]; simpl.
  - constructor.
  - apply StronglySorted_app_one; [exact IH|].
    apply Forall_rev. exact Hy.
Qed.

Lemma sort_Sort_perm data : Permutation (sort_Sort data) data.
Proof.
  unfold sort_Sort.
  eapply perm_trans; [apply Permutation_sym, Permutation_rev|].
  eapply perm_trans; [apply insertion_perm|].
  rewrite app_nil_r. apply Permutation_refl.
Qed.

Lemma sort_Sort_before data : StronglySorted before (sort_Sort data).
Proof.
  unfold sort_Sort.
  apply StronglySorted_rev, insertion_sorted. constructor.
Qed.

Lemma StronglySorted_impl (R S : RuleRef -> RuleRef -> Prop) l :
  (forall a b, R a b -> S a b) -> StronglySorted R l -> StronglySorted S l.
Proof.
  intros HRS. induction 1 as [|a l Hs IH Ha]; constructor.
  - exact IH.
  - eapply Forall_impl; [|exact Ha]. intros b. apply HRS.
Qed.

Lemma sort_Sort_sorted data : in_priority_order (sort_Sort data).
Proof.
  unfold in_priority_order.
  eapply StronglySorted_impl; [|apply sort_Sort_before].
  intros a b. apply before_precedes.
Qed.

Lemma sort_Sort_In data x : In x (sort_Sort data) <-> In x data.
Proof.
  split; apply Permutation_in;
    [apply sort_Sort_perm | apply Permutation_sym, sort_Sort_perm].
Qed.

Lemma sort_Sort_length data : List.length (sort_Sort data) = List.length data.
Proof. apply Permutation_length, sort_Sort_perm. Qed.

(** Two lists in priority order with the same elements are equal when no
    rule ID occurs twice. *)
Lemma priority_order_unique l1 : forall l2,
  in_priority_order l1 -> in_priority_order l2 ->
  Permutation l1 l2 -> NoDup (map ID l1) -> l1 = l2.
Proof.
  unfold in_priority_order.
  induction l1 as [|a l1 IH]; intros l2 S1 S2 P N.
  - apply Permutation_nil in P. congruence.
  - destruct l2 as [|b l2].
    { apply Permutation_sym, Permutation_nil in P. discriminate. }
    inversion S1 as [|? ? S1' F1]; subst.
    inversion S2 as [|? ? S2' F2]; subst.
    inversion N as [|? ? Na N']; subst.
    assert (a = b) as ->.
    { assert (Ia : In a (b :: l2))
        by (eapply Permutation_in; [exact P | left; reflexivity]).
      assert (Ib : In b (a :: l1))
        by (eapply Permutation_in;
            [apply Permutation_sym; exact P | left; reflexivity]).
      destruct Ia as [->|Ia]; [reflexivity|].
      destruct Ib as [->|Ib]; [reflexivity|].
      rewrite Forall_forall in F1, F2.
      destruct (Less_total a b
                  (proj2 (before_precedes b a) (F2 _ Ia))
                  (proj2 (before_precedes a b) (F1 _ Ib))) as [_ Hid].
      exfalso. apply Na. rewrite Hid. apply in_map. exact Ib. }
    f_equal. apply IH; try assumption.
    eapply Permutation_cons_inv. exact P.
Qed.

End Sorting.

(* ================================================================== *)
(** * What the collecting loop builds *)

Section Collect.

Lemma classify_fields report r :
  let report' := classify report r in
  Object report' = Object report /\
  FileName report' = FileName report /\
  Message report' = Message report /\
  Valid report' = Valid report /\
  Rules report' = Rules report /\
  Passed (Scoring report') =
    Passed (Scoring report) ++ filter is_passed [r] /\
  Critical (Scoring report') =
    Critical (Scoring report) ++ filter is_critical [r] /\
  Advise (Scoring report') =
    Advise (Scoring report) ++ filter is_advise [r] /\
  Score report' =
    fold_left int_add (map Points (filter is_matched [r])) (Score report).
Proof.
  unfold classify, is_passed, is_critical, is_advise, is_matched.
  cbn [filter]. rewrite (Z.leb_antisym (Points r) 0).
  destruct (0 <? Containers r), (Points r <? 0);
    simpl; rewrite ?app_nil_r; repeat split; reflexivity.
Qed.

Lemma collect_fields ch : forall report n,
  let st := fold_left collect_step ch (report, n) in
  Object (fst st) = Object report /\
  FileName (fst st) = FileName report /\
  Message (fst st) = Message report /\
  Valid (fst st) = Valid report /\
  Rules (fst st) = fold_left appendUniqueRule ch (Rules report) /\
  Passed (Scoring (fst st)) =
    Passed (Scoring report) ++ filter is_passed ch /\
  Critical (Scoring (fst st)) =
    Critical (Scoring report) ++ filter is_critical ch /\
  Advise (Scoring (fst st)) =
    Advise (Scoring report) ++ filter is_advise ch /\
  Score (fst st) =
    fold_left int_add (map Points (filter is_matched ch)) (Score report) /\
  snd st = n + Z.of_nat (List.length ch).
Proof.
  induction ch as [|r ch IH]; intros report n.
  - simpl. rewrite !app_nil_r. repeat split; lia.
  - cbn [fold_left].
    change (collect_step (report, n) r)
      with (classify (with_Rules report
                        (appendUniqueRule (Rules report) r)) r, n + 1).
    specialize (IH (classify (with_Rules report
                                (appendUniqueRule (Rules report) r)) r)
                   (n + 1)).
    cbv zeta in IH.
    destruct IH as (I1 & I2 & I3 & I4 & I5 & I6 & I7 & I8 & I9 & I10).
    pose proof (classify_fields
                  (with_Rules report (appendUniqueRule (Rules report) r)) r)
      as C.
    cbv zeta in C.
    destruct C as (C1 & C2 & C3 & C4 & C5 & C6 & C7 & C8 & C9).
    cbv zeta.
    rewrite I1, I2, I3, I4, I5, I6, I7, I8, I9, I10.
    rewrite C1, C2, C3, C4, C5, C6, C7, C8, C9.
    cbn [with_Rules Object FileName Message Valid Rules Scoring Score].
    change (r :: ch) with ([r] ++ ch).
    rewrite !filter_app, map_app, !fold_left_app, length_app, <- !app_assoc.
    repeat split; try reflexivity.
    cbn [List.length]. lia.
Qed.

End Collect.

(* ================================================================== *)
(** * The report of one document *)

Section ReportFields.

Variable E : Externals.
Variable rs : Ruleset.
Variable sch : Scheduler.

Lemma evaluate_fields json report :
  Rules report = [] -> Score report = 0 ->
  Scoring report = {| Advise := []; Passed := []; Critical := [] |} ->
  let ch := dispatch E sch rs json in
  let r := fst (evaluate E sch rs json report) in
  Object r = Object report /\
  FileName r = FileName report /\
  Valid r = true /\
  Rules r = unique_results ch /\
  Passed (Scoring r) = sort_Sort (filter is_passed ch) /\
  Critical (Scoring r) = sort_Sort (filter is_critical ch) /\
  Advise (Scoring r) = sort_Sort (filter is_advise ch) /\
  Score r = sum_Points (filter is_matched ch) /\
  Message r = verdict (Z.of_nat (List.length ch)) (Score r) /\
  snd (evaluate E sch rs json report) = Z.of_nat (List.length ch).
Proof.
  intros HR HS HB ch r. subst r. unfold evaluate. fold ch.
  pose proof (collect_fields ch (with_Valid report true) 0) as C.
  cbv zeta in C. fold (collect (with_Valid report true) ch) in C.
  destruct (collect (with_Valid report true) ch) as [report' n].
  cbn [fst snd] in *.
  destruct C as (C1 & C2 & C3 & C4 & C5 & C6 & C7 & C8 & C9 & C10).
  cbn [with_Valid Object FileName Message Valid Rules Scoring Score] in *.
  rewrite HR in C5. rewrite HS in C9. rewrite HB in C6, C7, C8.
  cbn [Passed Critical Advise app] in *.
  unfold sort_buckets.
  cbn [with_Message with_Scoring with_Critical with_Passed with_Advise
       Object FileName Message Valid Rules Scoring Score
       Passed Critical Advise].
  rewrite C1, C2, C4, C5, C6, C7, C8, C9, C10.
  repeat split; reflexivity.
Qed.

Lemma generateReport_fields fileName json schemaDir :
  let ch := dispatch E sch rs json in
  let r := generateReport E rs sch fileName json schemaDir in
  Object r = getObjectName E json /\
  FileName r = fileName /\
  Valid r = true /\
  Rules r = unique_results ch /\
  Passed (Scoring r) = sort_Sort (filter is_passed ch) /\
  Critical (Scoring r) = sort_Sort (filter is_critical ch) /\
  Advise (Scoring r) = sort_Sort (filter is_advise ch) /\
  Score r = sum_Points (filter is_matched ch) /\
  Message r = verdict (Z.of_nat (List.length ch)) (Score r) /\
  appliedRules E rs sch fileName json schemaDir = Z.of_nat (List.length ch).
Proof.
  unfold generateReport, appliedRules.
  apply (evaluate_fields json
           (with_Object (newReport fileName) (getObjectName E json)));
    reflexivity.
Qed.

End ReportFields.

(* ================================================================== *)
(** * Schema validation *)

Section Validation.

Lemma append_assoc (s t u : string) : (s +++ t) +++ u = s +++ (t +++ u).
Proof. induction s as [|c s IH]; simpl; [reflexivity | rewrite IH; reflexivity]. Qed.

Lemma append_empty_r s : s +++ EmptyString = s.
Proof. induction s as [|c s IH]; simpl; [reflexivity | rewrite IH; reflexivity]. Qed.

Lemma append_length s t :
  String.length (s +++ t) = (String.length s + String.length t)%nat.
Proof. induction s as [|c s IH]; simpl; [reflexivity | rewrite IH; reflexivity]. Qed.

Lemma fold_spaced descs : forall message,
  fold_left (fun message desc => message +++ (desc +++ " ")) descs message =
  message +++ spaced descs.
Proof.
  induction descs as [|d descs IH]; intros message; simpl.
  - rewrite append_empty_r. reflexivity.
  - rewrite IH, !append_assoc. reflexivity.
Qed.

Lemma resultMessage_text message result :
  Validating.resultMessage message result = message +++ result_text result.
Proof.
  unfold Validating.resultMessage, result_text.
  destruct (vr_Errors result) as [|d descs] eqn:Herr.
  - cbn. destruct (vr_Kind result =? EmptyString)%string;
      [reflexivity | rewrite append_empty_r; reflexivity].
  - cbn [List.length Nat.ltb Nat.leb]. apply fold_spaced.
Qed.

Lemma fold_resultMessage results : forall message,
  fold_left Validating.resultMessage results message =
  message +++ validation_text results.
Proof.
  induction results as [|r results IH]; intros message; simpl.
  - rewrite append_empty_r. reflexivity.
  - rewrite IH, resultMessage_text, append_assoc. reflexivity.
Qed.

Lemma validationMessage_text results :
  Validating.validationMessage results = validation_text results.
Proof. unfold Validating.validationMessage. rewrite fold_resultMessage. reflexivity. Qed.

Lemma result_text_length result :
  (0 <? String.length (result_text result))%nat = rejected result.
Proof.
  unfold result_text, rejected.
  destruct (vr_Errors result) as [|d descs].
  - cbn. destruct (vr_Kind result =? EmptyString)%string; reflexivity.
  - cbn [spaced]. rewrite !append_length. cbn [String.length List.length].
    transitivity true; [apply Nat.ltb_lt; lia | reflexivity].
Qed.

(** The message is not empty exactly when some result is rejected. *)
Lemma validation_text_length results :
  (0 <? String.length (validation_text results))%nat =
  existsb rejected results.
Proof.
  induction results as [|r results IH]; [reflexivity|].
  cbn [validation_text existsb]. rewrite append_length.
  rewrite <- IH, <- result_text_length.
  destruct (String.length (result_text r)),
           (String.length (validation_text results)); reflexivity.
Qed.

Lemma generateReport_ignores_validator E validate rs sch fileName json schemaDir :
  generateReport (with_validator E validate) rs sch fileName json schemaDir =
  generateReport E rs sch fileName json schemaDir.
Proof. reflexivity. Qed.

Lemma generateReport_kubeval_cases E rs sch fileName json schemaDir :
  Validating.generateReport E rs sch fileName json schemaDir =
  match kubeval_Validate E json (Validating.validationConfig E fileName schemaDir) with
  | inr err => stopped_report E fileName json (validator_error_text err)
  | inl results =>
      if existsb rejected results
      then stopped_report E fileName json (validation_text results)
      else generateReport E rs sch fileName json schemaDir
  end.
Proof.
  unfold Validating.generateReport.
  destruct (kubeval_Validate E json _) as [results|err].
  - cbv zeta. cbn [with_Message Message].
    rewrite validationMessage_text, validation_text_length.
    destruct (existsb rejected results) eqn:X; [reflexivity|].
    rewrite <- validation_text_length in X.
    destruct (validation_text results); [reflexivity | discriminate].
  - unfold validator_error_text.
    destruct (Contains err _); reflexivity.
Qed.

(** A property of the stopped reports and of the reports of the first copy
    is a property of the reports of the copy that validates. *)
Lemma validating_report_ind (P : Report -> Prop)
  E rs sch fileName json schemaDir :
  (forall message, P (stopped_report E fileName json message)) ->
  P (generateReport E rs sch fileName json schemaDir) ->
  P (Validating.generateReport E rs sch fileName json schemaDir).
Proof.
  intros Hstop Hgen. rewrite generateReport_kubeval_cases.
  destruct (kubeval_Validate E json _) as [results|err]; [|apply Hstop].
  destruct (existsb rejected results); [apply Hstop | exact Hgen].
Qed.

End Validation.

(* ================================================================== *)
(** * Reports of a run come from [generateReport] *)

Section RunReports.

Variable E : Externals.
Variable generate : nat -> string -> Report.
Variable P : Report -> Prop.
Hypothesis generate_P : forall i data, P (generate i data).

Lemma Run_loop_Forall len_bits bits : forall i reports,
  Forall P reports ->
  Forall P (fst (Run_loop E generate len_bits i bits reports)).
Proof.
  induction bits as [|d bits IH]; intros i reports H; cbn [Run_loop].
  - exact H.
  - destruct (_ || _)%bool.
    + destruct (_ && _)%bool; [constructor | apply IH, H].
    + destruct (YAMLToJSON E (TrimSpace d)) as [data|err]; [|exact H].
      apply IH. apply Forall_app. split; [exact H|].
      repeat constructor. apply generate_P.
Qed.

Lemma Run_with_Forall fileBytes :
  Forall P (fst (Run_with E generate fileBytes)).
Proof.
  unfold Run_with. destruct (json_Valid E fileBytes).
  - repeat constructor. apply generate_P.
  - apply Run_loop_Forall. constructor.
Qed.

End RunReports.

(* ================================================================== *)
(** * Score *)

Section ScoreFacts.

Lemma total_matched ch :
  total_Points (filter is_matched ch) =
  total_Points (filter is_critical ch) + total_Points (filter is_passed ch).
Proof.
  unfold total_Points.
  induction ch as [|r ch IH]; [reflexivity|].
  cbn [filter]. unfold is_matched, is_critical, is_passed in *.
  rewrite (Z.leb_antisym (Points r) 0).
  destruct (0 <? Containers r), (Points r <? 0); simpl; lia.
Qed.

Lemma total_buckets ch :
  total_Points (sort_Sort (filter is_critical ch) ++
                sort_Sort (filter is_passed ch)) =
  total_Points (filter is_matched ch).
Proof.
  rewrite total_Points_app, total_matched.
  rewrite (total_Points_perm _ _ (sort_Sort_perm (filter is_critical ch))).
  rewrite (total_Points_perm _ _ (sort_Sort_perm (filter is_passed ch))).
  reflexivity.
Qed.

Lemma abs_Points_bound l : Z.abs (total_Points l) <= abs_Points l.
Proof.
  unfold total_Points, abs_Points.
  induction l as [|a l IH]; simpl; lia.
Qed.

Lemma abs_Points_filter p l : 0 <= abs_Points (filter p l) <= abs_Points l.
Proof.
  unfold abs_Points.
  induction l as [|a l IH]; simpl; [lia|].
  destruct (p a); simpl; lia.
Qed.

Lemma abs_Points_app l1 l2 :
  abs_Points (l1 ++ l2) = abs_Points l1 + abs_Points l2.
Proof.
  unfold abs_Points. induction l1 as [|a l1 IH]; simpl; lia.
Qed.

Lemma abs_Points_eval E json rules :
  abs_Points (flat_map (eval E json) rules) <= catalog_weight rules.
Proof.
  induction rules as [|r rules IH]; [vm_compute; discriminate|].
  cbn [flat_map]. rewrite abs_Points_app.
  change (catalog_weight (r :: rules))
    with (Z.abs (rule_Points r) + catalog_weight rules).
  assert (abs_Points (eval E json r) <= Z.abs (rule_Points r)).
  { unfold eval.
    destruct (Rule_Eval E r json) as [c [[| |]|]];
      unfold abs_Points; simpl; lia. }
  lia.
Qed.

Lemma catalog_weight_perm l1 l2 :
  Permutation l1 l2 -> catalog_weight l1 = catalog_weight l2.
Proof.
  unfold catalog_weight. induction 1; simpl; lia.
Qed.

Lemma matched_in_range E sch rs json :
  catalog_weight (rs_Rules rs) < 2 ^ 63 ->
  in_range (total_Points (filter is_matched (dispatch E sch rs json))).
Proof.
  intros H. unfold in_range, dispatch.
  pose proof (abs_Points_bound
                (filter is_matched
                   (flat_map (eval E json) (arrival sch (rs_Rules rs))))).
  pose proof (abs_Points_filter is_matched
                (flat_map (eval E json) (arrival sch (rs_Rules rs)))).
  pose proof (abs_Points_eval E json (arrival sch (rs_Rules rs))).
  rewrite (catalog_weight_perm _ _ (arrival_perm sch (rs_Rules rs))) in *.
  lia.
Qed.

Lemma generateReport_score_is_sum E rs sch fileName json schemaDir :
  score_is_sum (generateReport E rs sch fileName json schemaDir).
Proof.
  destruct (generateReport_fields E rs sch fileName json schemaDir)
    as (_ & _ & _ & _ & HP & HC & HA & HS & _).
  unfold score_is_sum. rewrite HP, HC, HA, HS. split.
  - rewrite !sum_Points_wrap, total_buckets. reflexivity.
  - apply Forall_forall. intros a Ha Hin.
    apply sort_Sort_In, filter_In in Ha. destruct Ha as [_ Ha].
    unfold is_advise in Ha. apply andb_true_iff in Ha. destruct Ha as [Ha _].
    apply in_app_or in Hin.
    destruct Hin as [Hin|Hin];
      apply sort_Sort_In, filter_In in Hin; destruct Hin as [_ Hin];
      unfold is_critical, is_passed in Hin;
      apply andb_true_iff in Hin; destruct Hin as [Hin _];
      rewrite Hin in Ha; discriminate.
Qed.

Lemma generateReport_score_exact E rs sch fileName json schemaDir :
  catalog_weight (rs_Rules rs) < 2 ^ 63 ->
  score_is_exact_sum (generateReport E rs sch fileName json schemaDir).
Proof.
  intros H.
  destruct (generateReport_fields E rs sch fileName json schemaDir)
    as (_ & _ & _ & _ & HP & HC & _ & HS & _).
  unfold score_is_exact_sum. rewrite HP, HC, HS.
  rewrite sum_Points_wrap, total_buckets.
  apply int_wrap_small, matched_in_range, H.
Qed.

End ScoreFacts.

(** C1.  In every report that [Run] returns, and in the report
    [generateReport] builds for any document under any scheduling of the
    goroutines, Score is the sum of the Points of the entries of Critical and
    Passed (the sum as Go computes it on [int]), and no entry of Advise is
    among the entries summed.  For the catalog of [NewRuleset] the sum cannot
    overflow, and Score is that sum as an integer.  The reports of the copy
    that validates satisfy the same equation. *)
Theorem score_sums_critical_and_passed :
  (forall E rs sch fileName json schemaDir,
      score_is_sum (generateReport E rs sch fileName json schemaDir)) /\
  (forall E rs scheds fileName fileBytes schemaDir,
      Forall score_is_sum (fst (Run E rs scheds fileName fileBytes schemaDir))) /\
  (forall E scheds fileName fileBytes schemaDir,
      Forall score_is_exact_sum
             (fst (Run E NewRuleset scheds fileName fileBytes schemaDir))) /\
  (forall E rs scheds fileName fileBytes schemaDir,
      Forall score_is_sum
             (fst (Validating.Run E rs scheds fileName fileBytes schemaDir))).
Proof.
  split; [|split; [|split]].
  - apply generateReport_score_is_sum.
  - intros. apply Run_with_Forall. intros.
    apply generateReport_score_is_sum.
  - intros. apply Run_with_Forall. intros.
    apply generateReport_score_exact. vm_compute. reflexivity.
  - intros. apply Run_with_Forall. intros.
    apply validating_report_ind.
    + intros. split; [reflexivity | constructor].
    + apply generateReport_score_is_sum.
Qed.

(* ================================================================== *)
(** * Order of the buckets *)

Section BucketOrder.

Lemma generateReport_buckets_sorted E rs sch fileName json schemaDir :
  buckets_in_priority_order (generateReport E rs sch fileName json schemaDir).
Proof.
  destruct (generateReport_fields E rs sch fileName json schemaDir)
    as (_ & _ & _ & _ & HP & HC & HA & _).
  unfold buckets_in_priority_order. rewrite HP, HC, HA.
  repeat split; apply sort_Sort_sorted.
Qed.

End BucketOrder.

(** C7.  In every report that [generateReport] builds and that [Run]
    returns, in either copy, each of Critical, Passed and Advise is in
    priority order: of two entries the earlier one has the larger weight, or
    the same weight and a rule ID that is not greater. *)
Theorem buckets_sorted_by_weight_then_id :
  (forall E rs sch fileName json schemaDir,
      buckets_in_priority_order
        (generateReport E rs sch fileName json schemaDir)) /\
  (forall E rs scheds fileName fileBytes schemaDir,
      Forall buckets_in_priority_order
             (fst (Run E rs scheds fileName fileBytes schemaDir))) /\
  (forall E rs scheds fileName fileBytes schemaDir,
      Forall buckets_in_priority_order
             (fst (Validating.Run E rs scheds fileName fileBytes schemaDir))).
Proof.
  split; [|split].
  - apply generateReport_buckets_sorted.
  - intros. apply Run_with_Forall. intros.
    apply generateReport_buckets_sorted.
  - intros. apply Run_with_Forall. intros.
    apply validating_report_ind.
    + intros. repeat split; constructor.
    + apply generateReport_buckets_sorted.
Qed.

(* ================================================================== *)
(** * The list of rules and the number of applied rules *)

Section RulesList.

Lemma unique_from_In ch : forall acc x,
  In x (fold_left appendUniqueRule ch acc) <-> In x acc \/ In x ch.
Proof.
  induction ch as [|r ch IH]; intros acc x; cbn [fold_left].
  - simpl. tauto.
  - rewrite IH. unfold appendUniqueRule.
    destruct (containsRule acc r) eqn:C; cbn [negb].
    + apply containsRule_In in C. simpl. split; [tauto|].
      intros [H|[->|H]]; tauto.
    + rewrite in_app_iff. simpl. tauto.
Qed.

Lemma unique_results_In ch x : In x (unique_results ch) <-> In x ch.
Proof.
  unfold unique_results. rewrite unique_from_In. simpl. tauto.
Qed.

Lemma unique_from_NoDup ch : forall acc,
  NoDup (acc ++ ch) -> fold_left appendUniqueRule ch acc = acc ++ ch.
Proof.
  induction ch as [|r ch IH]; intros acc N; cbn [fold_left].
  - rewrite app_nil_r. reflexivity.
  - unfold appendUniqueRule.
    destruct (containsRule acc r) eqn:C; cbn [negb].
    + apply containsRule_In in C.
      apply NoDup_remove_2 in N. exfalso. apply N.
      apply in_or_app. left. exact C.
    + rewrite IH; rewrite <- app_assoc; [reflexivity | exact N].
Qed.

Lemma unique_results_NoDup ch : NoDup ch -> unique_results ch = ch.
Proof. intros N. apply (unique_from_NoDup ch []). exact N. Qed.

Lemma eval_at_most_one E json rule : (List.length (eval E json rule) <= 1)%nat.
Proof.
  unfold eval. destruct (Rule_Eval E rule json) as [c [[| |]|]]; simpl; lia.
Qed.

Lemma eval_ID E json rule ref :
  In ref (eval E json rule) -> ID ref = rule_ID rule.
Proof.
  unfold eval. destruct (Rule_Eval E rule json) as [c [[| |]|]]; simpl;
    intros H; repeat destruct H as [H|H]; try contradiction;
    subst; reflexivity.
Qed.

Lemma eval_Points E json rule ref :
  In ref (eval E json rule) -> Points ref = rule_Points rule.
Proof.
  unfold eval. destruct (Rule_Eval E rule json) as [c [[| |]|]]; simpl;
    intros H; repeat destruct H as [H|H]; try contradiction;
    subst; reflexivity.
Qed.

Lemma results_NoDup_ID E json rules :
  NoDup (map rule_ID rules) ->
  NoDup (map ID (flat_map (eval E json) rules)).
Proof.
  induction rules as [|r rules IH]; intros N; cbn [flat_map map].
  - constructor.
  - inversion N as [|? ? Nr N']; subst.
    rewrite map_app.
    assert (Hr : forall x, In x (map ID (eval E json r)) -> x = rule_ID r).
    { intros x Hx. apply in_map_iff in Hx. destruct Hx as (ref & <- & Hin).
      eapply eval_ID; exact Hin. }
    assert (Ht : ~ In (rule_ID r) (map ID (flat_map (eval E json) rules))).
    { intros Hx. apply in_map_iff in Hx. destruct Hx as (ref & Hid & Hin).
      apply in_flat_map in Hin. destruct Hin as (r' & Hr' & Hin).
      apply eval_ID in Hin. apply Nr. apply in_map_iff.
      exists r'. split; [congruence | exact Hr']. }
    pose proof (eval_at_most_one E json r) as L.
    destruct (eval E json r) as [|ref [|ref' l]]; cbn [map app].
    + apply IH, N'.
    + constructor; [|apply IH, N'].
      rewrite (Hr (ID ref)) by (left; reflexivity). exact Ht.
    + simpl in L. lia.
Qed.

Lemma dispatch_NoDup_ID E sch rs json :
  NoDup (map rule_ID (rs_Rules rs)) ->
  NoDup (map ID (dispatch E sch rs json)).
Proof.
  intros N. unfold dispatch. apply results_NoDup_ID.
  eapply Permutation_NoDup; [|exact N].
  apply Permutation_map, Permutation_sym, arrival_perm.
Qed.

Lemma dispatch_NoDup E sch rs json :
  NoDup (map rule_ID (rs_Rules rs)) -> NoDup (dispatch E sch rs json).
Proof.
  intros N. eapply NoDup_map_inv. apply dispatch_NoDup_ID, N.
Qed.

(** Every result falls in exactly one row of the classification. *)
Lemma classification_partition ch :
  List.length ch =
    (List.length (filter is_passed ch) + List.length (filter is_critical ch) +
     List.length (filter is_advise ch) +
     List.length (filter is_unrecorded ch))%nat.
Proof.
  induction ch as [|r ch IH]; [reflexivity|].
  cbn [filter]. unfold is_passed, is_critical, is_advise, is_unrecorded in *.
  rewrite (Z.leb_antisym (Points r) 0).
  destruct (0 <? Containers r), (Points r <? 0); simpl; lia.
Qed.

End RulesList.

Lemma distinct_NoDup ids : distinct ids = true -> NoDup ids.
Proof.
  induction ids as [|id ids IH]; simpl; intros H.
  - constructor.
  - apply andb_true_iff in H. destruct H as [H1 H2].
    constructor; [|apply IH, H2].
    intros Hin. apply negb_true_iff in H1.
    assert (existsb (String.eqb id) ids = true).
    { apply existsb_exists. exists id. split; [exact Hin|].
      apply String.eqb_refl. }
    congruence.
Qed.

Lemma NewRuleset_IDs_distinct : NoDup (map rule_ID (rs_Rules NewRuleset)).
Proof. apply distinct_NoDup. vm_compute. reflexivity. Qed.

(** C3, as stated, fails: on a Pod where nothing matches, the rule
    Privileged (-30 points, zero matches) is listed in Rules. *)
Lemma unmatched_negative_rule_is_in_Rules :
  In privilegedRule (rs_Rules NewRuleset) /\
  rule_Points privilegedRule < 0 /\
  Rule_Eval bare_pod privilegedRule pod_json = (0, None) /\
  exists ref,
    eval bare_pod pod_json privilegedRule = [ref] /\
    In ref (Rules (generateReport bare_pod NewRuleset fifo
                     "pod.json" pod_json EmptyString)).
Proof.
  split; [do 6 right; left; reflexivity|].
  split; [reflexivity|].
  split; [reflexivity|].
  eexists. split; [reflexivity|].
  apply containsRule_In. vm_compute. reflexivity.
Qed.

(** C3, amended.  A rule with negative Points that applies to the document
    and finds zero matches is recorded in Rules and in none of Critical,
    Passed and Advise. *)
Theorem unmatched_negative_rule_only_in_Rules
  E rs sch fileName json schemaDir rule ref :
  In rule (rs_Rules rs) ->
  rule_Points rule < 0 ->
  eval E json rule = [ref] ->
  Containers ref = 0 ->
  let r := generateReport E rs sch fileName json schemaDir in
  ID ref = rule_ID rule /\
  In ref (Rules r) /\
  ~ In ref (Critical (Scoring r)) /\
  ~ In ref (Passed (Scoring r)) /\
  ~ In ref (Advise (Scoring r)).
Proof.
  intros Hin Hneg Hev Hc r. subst r.
  destruct (generateReport_fields E rs sch fileName json schemaDir)
    as (_ & _ & _ & HR & HP & HC & HA & _).
  rewrite HR, HP, HC, HA.
  assert (Href : In ref (eval E json rule)) by (rewrite Hev; left; reflexivity).
  pose proof (eval_Points _ _ _ _ Href) as Hp.
  split; [eapply eval_ID; exact Href|].
  split.
  - apply unique_results_In. unfold dispatch. apply in_flat_map.
    exists rule. split; [|exact Href].
    eapply Permutation_in; [apply Permutation_sym, arrival_perm | exact Hin].
  - repeat split; intros H; apply sort_Sort_In, filter_In in H;
      destruct H as [_ H];
      unfold is_critical, is_passed, is_advise in H;
      apply andb_true_iff in H; destruct H as [H1 H2];
      rewrite ?Z.ltb_lt, ?Z.leb_le in *; lia.
Qed.

Lemma unmatched_negative_rule_only_in_Rules_witness :
  let ref := {| Containers := 0; ID := "Privileged"; Points := -30;
                Reason := rule_Reason privilegedRule;
                Selector := rule_Selector privilegedRule;
                Weight := 0; Link := EmptyString |} in
  let r := generateReport bare_pod NewRuleset lifo
             "pod.json" pod_json EmptyString in
  ID ref = rule_ID privilegedRule /\
  In ref (Rules r) /\
  ~ In ref (Critical (Scoring r)) /\
  ~ In ref (Passed (Scoring r)) /\
  ~ In ref (Advise (Scoring r)).
Proof.
  intros ref.
  apply (unmatched_negative_rule_only_in_Rules
           bare_pod NewRuleset lifo "pod.json" pod_json EmptyString
           privilegedRule ref).
  - do 6 right; left; reflexivity.
  - reflexivity.
  - reflexivity.
  - reflexivity.
Defined.

(** C4, as stated, fails: on a Pod where nothing matches nine rules are
    applied and the buckets hold five entries. *)
Lemma applied_rules_exceed_buckets :
  let r := generateReport bare_pod NewRuleset fifo
             "pod.json" pod_json EmptyString in
  appliedRules bare_pod NewRuleset fifo "pod.json" pod_json EmptyString = 9 /\
  Z.of_nat (List.length (Passed (Scoring r))) +
  Z.of_nat (List.length (Critical (Scoring r))) +
  Z.of_nat (List.length (Advise (Scoring r))) = 5.
Proof. vm_compute. split; reflexivity. Qed.

(** C4, amended.  The number of applied rules is the number of entries of
    Passed, Critical and Advise plus the number of results with no match and
    negative Points, which are put in no bucket; it is the number of values
    received from the channel. *)
Theorem applied_rules_count E rs sch fileName json schemaDir :
  let r := generateReport E rs sch fileName json schemaDir in
  let ch := dispatch E sch rs json in
  appliedRules E rs sch fileName json schemaDir =
    Z.of_nat (List.length (Passed (Scoring r))) +
    Z.of_nat (List.length (Critical (Scoring r))) +
    Z.of_nat (List.length (Advise (Scoring r))) +
    Z.of_nat (List.length (filter is_unrecorded ch)) /\
  appliedRules E rs sch fileName json schemaDir = Z.of_nat (List.length ch).
Proof.
  intros r ch. subst r ch.
  destruct (generateReport_fields E rs sch fileName json schemaDir)
    as (_ & _ & _ & _ & HP & HC & HA & _ & _ & HN).
  rewrite HP, HC, HA, HN, !sort_Sort_length.
  split; [|reflexivity].
  rewrite (classification_partition (dispatch E sch rs json)) at 1. lia.
Qed.

(** C10.  Every rule sends at most one result, with the ID of the rule.
    The IDs of the catalog of [NewRuleset] are pairwise distinct; hence, for
    every document and every scheduling, the removal of repeats drops
    nothing (Rules is the sequence of results received), no rule ID occurs
    twice in Rules, and the length of Rules is the number of applied
    rules. *)
Theorem catalog_results_are_unique :
  (forall E json rule,
      (List.length (eval E json rule) <= 1)%nat /\
      Forall (fun ref => ID ref = rule_ID rule) (eval E json rule)) /\
  NoDup (map rule_ID (rs_Rules NewRuleset)) /\
  (forall E sch fileName json schemaDir,
      let r := generateReport E NewRuleset sch fileName json schemaDir in
      Rules r = dispatch E sch NewRuleset json /\
      NoDup (map ID (Rules r)) /\
      Z.of_nat (List.length (Rules r)) =
        appliedRules E NewRuleset sch fileName json schemaDir).
Proof.
  split; [|split].
  - intros. split; [apply eval_at_most_one|].
    apply Forall_forall. apply eval_ID.
  - exact NewRuleset_IDs_distinct.
  - intros E sch fileName json schemaDir r. subst r.
    destruct (generateReport_fields E NewRuleset sch fileName json schemaDir)
      as (_ & _ & _ & HR & _ & _ & _ & _ & _ & HN).
    rewrite HR, HN.
    rewrite (unique_results_NoDup _
               (dispatch_NoDup E sch NewRuleset json NewRuleset_IDs_distinct)).
    repeat split.
    apply dispatch_NoDup_ID, NewRuleset_IDs_distinct.
Qed.

(* ================================================================== *)
(** * Identity of the object *)

Section Identity.

Lemma getObjectName_cases E json :
  getObjectName E json =
    if has_kind E json then identity_with_defaults E json else "Unknown".
Proof.
  unfold getObjectName, has_kind, identity_with_defaults.
  destruct (jq_Errors E json) as [|n]; cbn [Nat.ltb Nat.leb Nat.eqb andb];
    [|reflexivity].
  destruct (jq_Get E "kind" json) as [kind|]; [|reflexivity].
  destruct (jq_Get E "metadata.name" json),
           (jq_Get E "metadata.namespace" json);
    rewrite !append_assoc; reflexivity.
Qed.

Lemma generateReport_kubeval_Object E rs sch fileName json schemaDir :
  Object (Validating.generateReport E rs sch fileName json schemaDir) =
  getObjectName E json.
Proof.
  unfold Validating.generateReport.
  destruct (kubeval_Validate E json _) as [results|err].
  - cbv zeta. destruct (0 <? _)%nat; [reflexivity|].
    apply (evaluate_fields E rs sch json); reflexivity.
  - destruct (Contains err _); reflexivity.
Qed.

End Identity.

(** C9, as stated, fails: for a document without a kind the identity is
    "Unknown" alone, not "Unknown/undefined.default". *)
Lemma kindless_object_is_Unknown :
  let r := generateReport kindless NewRuleset fifo "x.json" "{}" EmptyString in
  Object r = "Unknown" /\
  identity_with_defaults kindless "{}" = "Unknown/undefined.default" /\
  Object r <> identity_with_defaults kindless "{}".
Proof.
  cbv zeta. split; [reflexivity|]. split; [reflexivity|].
  vm_compute. discriminate.
Qed.

(** C9, amended.  The Object of a report is "Unknown" when the document
    cannot be queried or has no kind; otherwise it is
    <kind>/<name>.<namespace>, where name defaults to "undefined" and
    namespace to "default".  Both copies of [generateReport] agree. *)
Theorem object_identity E rs sch fileName json schemaDir :
  let identity :=
    if has_kind E json then identity_with_defaults E json else "Unknown" in
  Object (generateReport E rs sch fileName json schemaDir) = identity /\
  Object (Validating.generateReport E rs sch fileName json schemaDir) = identity.
Proof.
  cbv zeta. rewrite <- getObjectName_cases. split.
  - apply (generateReport_fields E rs sch fileName json schemaDir).
  - apply generateReport_kubeval_Object.
Qed.

(* ================================================================== *)
(** * Reports and schema validation *)

(** C2, as stated, fails for [generateReport] of pkg/ruler/ruleset.go: the
    validator fails on the document, and yet the report is valid, carries
    the verdict of the rules as its message and lists the nine rules that
    were run. *)
Lemma validator_error_does_not_stop_evaluation :
  let cfg := Validating.validationConfig unvalidated_pod "pod.json" EmptyString in
  let r := generateReport unvalidated_pod NewRuleset fifo
             "pod.json" pod_json EmptyString in
  kubeval_Validate unvalidated_pod pod_json cfg =
    inr "schema validation failed" /\
  Valid r = true /\
  Message r = "Passed with a score of 0 points" /\
  List.length (Rules r) = 9%nat.
Proof. vm_compute. repeat split; reflexivity. Qed.

(** C2, amended.  [generateReport] of pkg/ruler/ruleset.go does not call
    the validator: every report is valid, its rules are those dispatched,
    and the report does not depend on the validator.  The copy that still
    validates calls the validator before any rule is run.  On an error of
    the validator it stops with Valid false, no rule run, and as Message
    "This resource is invalid, unknown schema" when the error text contains
    "404 Not Found", the error text otherwise.  When a result has errors or
    no kind it stops the same way, the Message being, result by result, the
    error descriptions each followed by a space, or, for a result without
    errors and without kind, "This resource is invalid, Kubernetes kind not
    found".  Otherwise it builds the report of the first copy. *)
Theorem validation_outcomes E rs sch fileName json schemaDir :
  (Valid (generateReport E rs sch fileName json schemaDir) = true /\
   Rules (generateReport E rs sch fileName json schemaDir) =
     unique_results (dispatch E sch rs json) /\
   forall validate,
     generateReport (with_validator E validate) rs sch fileName json schemaDir =
     generateReport E rs sch fileName json schemaDir) /\
  Validating.generateReport E rs sch fileName json schemaDir =
    match kubeval_Validate E json (Validating.validationConfig E fileName schemaDir) with
    | inr err => stopped_report E fileName json (validator_error_text err)
    | inl results =>
        if existsb rejected results
        then stopped_report E fileName json (validation_text results)
        else generateReport E rs sch fileName json schemaDir
    end.
Proof.
  split; [|apply generateReport_kubeval_cases].
  destruct (generateReport_fields E rs sch fileName json schemaDir)
    as (_ & _ & HV & HR & _).
  repeat split; try assumption.
Qed.

Example invalid_pod_message :
  Validating.generateReport invalid_pod NewRuleset fifo
    "pod.json" pod_json EmptyString =
  stopped_report invalid_pod "pod.json" pod_json
    "spec: Required metadata: Invalid type ".
Proof. reflexivity. Qed.

Example unknown_schema_message :
  Validating.generateReport unknown_schema_pod NewRuleset fifo
    "pod.json" pod_json EmptyString =
  stopped_report unknown_schema_pod "pod.json" pod_json
    "This resource is invalid, unknown schema".
Proof. reflexivity. Qed.

Example kindless_message :
  Message (Validating.generateReport kindless NewRuleset fifo
             "x.json" "{}" EmptyString) =
  "This resource is invalid, Kubernetes kind not found".
Proof. reflexivity. Qed.

(* ================================================================== *)
(** * Splitting the input *)

Section Splitting.

Variable E : Externals.
Variable generate : nat -> string -> Report.

Lemma Run_loop_skipped len_bits i d bits reports :
  skipped d = true ->
  Run_loop E generate len_bits i (d :: bits) reports =
    if ((len_bits =? i + 1)%nat && (List.length reports =? 0)%nat)%bool
    then ([], Some InvalidInputError)
    else Run_loop E generate len_bits (S i) bits reports.
Proof.
  intros H. cbn [Run_loop]. unfold skipped, is_blank in H. rewrite H.
  reflexivity.
Qed.

Lemma Run_loop_all_skipped bits : forall i,
  bits <> [] -> forallb skipped bits = true ->
  Run_loop E generate (i + List.length bits) i bits [] =
    ([], Some InvalidInputError).
Proof.
  induction bits as [|d bits IH]; intros i Hne Hall; [congruence|].
  cbn [forallb] in Hall. apply andb_true_iff in Hall.
  destruct Hall as [Hd Hall].
  rewrite Run_loop_skipped by exact Hd.
  destruct bits as [|d' bits].
  - cbn [List.length]. rewrite Nat.eqb_refl. reflexivity.
  - replace (i + List.length (d :: d' :: bits))%nat
      with (S i + List.length (d' :: bits))%nat by (cbn [List.length]; lia).
    replace ((S i + List.length (d' :: bits) =? i + 1)%nat) with false
      by (symmetry; apply Nat.eqb_neq; cbn [List.length]; lia).
    cbn [andb]. apply IH; [discriminate | exact Hall].
Qed.

(** Fragments that pass, with more fragments after them. *)
Lemma Run_loop_passes pre : forall i rest reports,
  rest <> [] -> forallb (passes E) pre = true ->
  Run_loop E generate (i + List.length (pre ++ rest)) i (pre ++ rest) reports =
  Run_loop E generate (i + List.length (pre ++ rest)) (i + List.length pre)
           rest (reports ++ built E generate i pre).
Proof.
  induction pre as [|d pre IH]; intros i rest reports Hne Hall.
  - cbn [app List.length built]. rewrite Nat.add_0_r, app_nil_r. reflexivity.
  - cbn [forallb] in Hall. apply andb_true_iff in Hall.
    destruct Hall as [Hd Hall].
    assert (Hlen : (i + List.length ((d :: pre) ++ rest) =
                    S i + List.length (pre ++ rest))%nat)
      by (cbn [app List.length]; lia).
    assert (Hlast : (i + List.length ((d :: pre) ++ rest) =? i + 1)%nat = false).
    { apply Nat.eqb_neq. cbn [app List.length]. rewrite length_app.
      destruct rest; [congruence | cbn [List.length]; lia]. }
    cbn [app built].
    destruct (skipped d) eqn:Hs.
    + rewrite Run_loop_skipped by exact Hs.
      change (d :: pre ++ rest) with ((d :: pre) ++ rest).
      rewrite Hlast. cbn [andb]. rewrite Hlen.
      rewrite IH by assumption.
      replace (S i + List.length pre)%nat
        with (i + List.length (d :: pre))%nat by (cbn [List.length]; lia).
      reflexivity.
    + unfold passes in Hd. rewrite Hs in Hd. cbn [orb] in Hd.
      cbn [Run_loop]. unfold skipped, is_blank in Hs. rewrite Hs.
      destruct (YAMLToJSON E (TrimSpace d)) as [data|err]; [|discriminate].
      change (d :: pre ++ rest) with ((d :: pre) ++ rest).
      rewrite Hlen. rewrite IH by assumption.
      replace (S i + List.length pre)%nat
        with (i + List.length (d :: pre))%nat by (cbn [List.length]; lia).
      rewrite <- app_assoc. reflexivity.
Qed.

Lemma split_from_not_nil sep s : forall skip cur, split_from sep skip cur s <> [].
Proof.
  induction s as [|c s IH]; intros skip cur; cbn [split_from].
  - discriminate.
  - destruct skip; [|apply IH].
    destruct (String.prefix sep (String c s)); [discriminate | apply IH].
Qed.

Lemma Split_not_nil s sep : Split s sep <> [].
Proof. apply split_from_not_nil. Qed.

End Splitting.

Section RunFacts.

Variable E : Externals.
Variable generate : nat -> string -> Report.

Lemma detectLineBreak_LF s :
  Contains s (CR +++ LF) = false -> detectLineBreak E s = LF.
Proof. unfold detectLineBreak. intros ->. reflexivity. Qed.

Lemma Run_with_all_skipped fileBytes :
  json_Valid E fileBytes = false ->
  forallb skipped (Split fileBytes (separator E fileBytes)) = true ->
  Run_with E generate fileBytes = ([], Some InvalidInputError).
Proof.
  intros HJ Hall. unfold Run_with. rewrite HJ.
  fold (separator E fileBytes).
  apply (Run_loop_all_skipped E generate _ O);
    [apply Split_not_nil | exact Hall].
Qed.

Lemma Run_with_only_separator :
  json_Valid E only_separator = false ->
  Run_with E generate only_separator = ([], Some InvalidInputError).
Proof.
  intros HJ. apply Run_with_all_skipped; [exact HJ|].
  unfold separator. rewrite detectLineBreak_LF by reflexivity.
  reflexivity.
Qed.

Lemma Run_with_trailing_separator data :
  YAMLToJSON E "doc1" = inl data ->
  exists report,
    Run_with E generate trailing_separator = ([report], None).
Proof.
  intros HY. unfold Run_with.
  destruct (json_Valid E trailing_separator); [eexists; reflexivity|].
  rewrite detectLineBreak_LF by reflexivity.
  change (Split trailing_separator (LF +++ "---" +++ LF))
    with ["doc1"; EmptyString].
  cbn [Run_loop List.length].
  change (TrimSpace "doc1") with "doc1".
  change (TrimSpace EmptyString) with EmptyString.
  cbn. rewrite HY. cbn. eexists; reflexivity.
Qed.

Lemma Run_with_conversion_failure fileBytes pre d post err :
  json_Valid E fileBytes = false ->
  Split fileBytes (separator E fileBytes) = pre ++ d :: post ->
  forallb (passes E) pre = true ->
  skipped d = false ->
  YAMLToJSON E (TrimSpace d) = inr err ->
  Run_with E generate fileBytes =
    (built E generate O pre, Some (OtherError err)).
Proof.
  intros HJ HS Hpre Hd HY. unfold Run_with. rewrite HJ.
  fold (separator E fileBytes). rewrite HS.
  change (List.length (pre ++ d :: post))
    with (0 + List.length (pre ++ d :: post))%nat.
  rewrite (Run_loop_passes E generate pre O (d :: post) [])
    by (discriminate || exact Hpre).
  cbn [Run_loop app]. unfold skipped, is_blank in Hd. rewrite Hd, HY.
  reflexivity.
Qed.

End RunFacts.

(** C5.  A fragment that is empty or a bare "---" after trimming is
    skipped, unless it is the last fragment and no report has been built, in
    which case the call fails with the invalid-input error and no reports.
    Hence an input all of whose fragments are such, and in particular the
    input "---", yields the invalid-input error and no reports; and the
    input "doc1", separator, nothing yields exactly one report and no
    error. *)
Theorem blank_fragments_are_skipped
  E rs scheds fileName schemaDir generate len_bits i d bits reports
  fileBytes data :
  skipped d = true ->
  json_Valid E fileBytes = false ->
  forallb skipped (Split fileBytes (separator E fileBytes)) = true ->
  json_Valid E only_separator = false ->
  YAMLToJSON E "doc1" = inl data ->
  Run_loop E generate len_bits i (d :: bits) reports =
    (if ((len_bits =? i + 1)%nat && (List.length reports =? 0)%nat)%bool
     then ([], Some InvalidInputError)
     else Run_loop E generate len_bits (S i) bits reports) /\
  Run E rs scheds fileName fileBytes schemaDir = ([], Some InvalidInputError) /\
  Run E rs scheds fileName only_separator schemaDir =
    ([], Some InvalidInputError) /\
  exists report,
    Run E rs scheds fileName trailing_separator schemaDir = ([report], None).
Proof.
  intros Hd HJ Hall HS HY. repeat split.
  - apply Run_loop_skipped, Hd.
  - apply Run_with_all_skipped; assumption.
  - apply Run_with_only_separator, HS.
  - eapply Run_with_trailing_separator, HY.
Qed.

Lemma blank_fragments_are_skipped_witness :
  let generate := fun i data =>
    generateReport bare_pod NewRuleset fifo "pods.yaml" data EmptyString in
  Run_loop bare_pod generate 2 1 [LF] [generate O "kind: Pod"] =
    ([generate O "kind: Pod"], None) /\
  Run bare_pod NewRuleset (fun _ => fifo) "pods.yaml"
      (" " +++ LF +++ "---" +++ LF +++ "---" +++ LF) EmptyString =
    ([], Some InvalidInputError) /\
  Run bare_pod NewRuleset (fun _ => fifo) "pods.yaml" only_separator
      EmptyString = ([], Some InvalidInputError) /\
  exists report,
    Run bare_pod NewRuleset (fun _ => fifo) "pods.yaml" trailing_separator
        EmptyString = ([report], None).
Proof.
  intros generate.
  apply (blank_fragments_are_skipped
           bare_pod NewRuleset (fun _ => fifo) "pods.yaml" EmptyString
           generate 2%nat 1%nat LF [] [generate O "kind: Pod"]
           (" " +++ LF +++ "---" +++ LF +++ "---" +++ LF) "doc1");
    reflexivity.
Defined.

(** C6.  When the fragments before [d] are skipped or convert, and [d] is
    not skipped and does not convert, [Run] returns the conversion error
    together with the reports of the fragments before [d], one for each
    fragment that was converted, in the order of the fragments; the
    fragments after [d] are not looked at. *)
Theorem conversion_failure_keeps_earlier_reports
  E rs scheds fileName fileBytes schemaDir pre d post err :
  json_Valid E fileBytes = false ->
  Split fileBytes (separator E fileBytes) = pre ++ d :: post ->
  forallb (passes E) pre = true ->
  skipped d = false ->
  YAMLToJSON E (TrimSpace d) = inr err ->
  Run E rs scheds fileName fileBytes schemaDir =
    (built E (fun i data =>
                generateReport E rs (scheds i) fileName data schemaDir) O pre,
     Some (OtherError err)).
Proof.
  intros. unfold Run. eapply Run_with_conversion_failure; eassumption.
Qed.

Lemma conversion_failure_keeps_earlier_reports_witness :
  Run pods_and_bad_yaml NewRuleset (fun _ => fifo) "pods.yaml"
      bad_second_fragment EmptyString =
    ([generateReport pods_and_bad_yaml NewRuleset fifo "pods.yaml"
        "kind: Pod" EmptyString],
     Some (OtherError "yaml: did not find expected node content")).
Proof.
  apply (conversion_failure_keeps_earlier_reports
           pods_and_bad_yaml NewRuleset (fun _ => fifo) "pods.yaml"
           bad_second_fragment EmptyString
           ["kind: Pod"] "bad: [" ["kind: Pod"]
           "yaml: did not find expected node content");
    reflexivity.
Defined.

(* ================================================================== *)
(** * Scheduling and the report *)

Section Scheduling.

Lemma filter_perm (p : RuleRef -> bool) l1 l2 :
  Permutation l1 l2 -> Permutation (filter p l1) (filter p l2).
Proof.
  induction 1 as [|x l1 l2 H IH|x y l|l1 l2 l3 H1 IH1 H2 IH2]; cbn [filter].
  - constructor.
  - destruct (p x); [apply perm_skip|]; exact IH.
  - destruct (p x), (p y); try apply perm_swap; apply Permutation_refl.
  - eapply perm_trans; eassumption.
Qed.

Lemma filter_NoDup_ID (p : RuleRef -> bool) l :
  NoDup (map ID l) -> NoDup (map ID (filter p l)).
Proof.
  induction l as [|x l IH]; cbn [map filter]; intros N; [constructor|].
  inversion N as [|? ? Nx N']; subst.
  destruct (p x); cbn [map]; [|apply IH, N'].
  constructor; [|apply IH, N'].
  intros Hin. apply Nx. apply in_map_iff in Hin.
  destruct Hin as (y & Hy & Hin). apply filter_In in Hin.
  apply in_map_iff. exists y. tauto.
Qed.

Lemma dispatch_perm E s1 s2 rs json :
  Permutation (dispatch E s1 rs json) (dispatch E s2 rs json).
Proof.
  unfold dispatch. apply Permutation_flat_map.
  eapply perm_trans; [apply arrival_perm|].
  apply Permutation_sym, arrival_perm.
Qed.

(** A sorted bucket does not depend on the order of arrival. *)
Lemma bucket_scheduling (p : RuleRef -> bool) ch1 ch2 :
  Permutation ch1 ch2 -> NoDup (map ID ch1) ->
  sort_Sort (filter p ch1) = sort_Sort (filter p ch2).
Proof.
  intros P N. apply priority_order_unique.
  - apply sort_Sort_sorted.
  - apply sort_Sort_sorted.
  - eapply perm_trans; [apply sort_Sort_perm|].
    eapply perm_trans; [apply filter_perm, P|].
    apply Permutation_sym, sort_Sort_perm.
  - eapply Permutation_NoDup;
      [apply Permutation_map, Permutation_sym, sort_Sort_perm|].
    apply filter_NoDup_ID, N.
Qed.

Lemma generateReport_scheduling E rs s1 s2 fileName json schemaDir :
  NoDup (map rule_ID (rs_Rules rs)) ->
  same_but_Rules_order
    (generateReport E rs s1 fileName json schemaDir)
    (generateReport E rs s2 fileName json schemaDir).
Proof.
  intros N.
  destruct (generateReport_fields E rs s1 fileName json schemaDir)
    as (O1 & F1 & V1 & R1 & P1 & C1 & A1 & S1 & M1 & _).
  destruct (generateReport_fields E rs s2 fileName json schemaDir)
    as (O2 & F2 & V2 & R2 & P2 & C2 & A2 & S2 & M2 & _).
  pose proof (dispatch_perm E s1 s2 rs json) as P.
  pose proof (dispatch_NoDup_ID E s1 rs json N) as N1.
  assert (HS : Score (generateReport E rs s1 fileName json schemaDir) =
               Score (generateReport E rs s2 fileName json schemaDir)).
  { rewrite S1, S2, !sum_Points_wrap. f_equal.
    apply total_Points_perm, filter_perm, P. }
  unfold same_but_Rules_order.
  rewrite O1, O2, F1, F2, V1, V2, M1, M2, HS.
  rewrite (Permutation_length P).
  repeat split.
  - destruct (Scoring (generateReport E rs s1 fileName json schemaDir)),
             (Scoring (generateReport E rs s2 fileName json schemaDir)).
    cbn [Passed Critical Advise] in *. subst.
    f_equal; apply bucket_scheduling; assumption.
  - rewrite R1, R2.
    rewrite (unique_results_NoDup _ (dispatch_NoDup E s1 rs json N)).
    rewrite (unique_results_NoDup _ (dispatch_NoDup E s2 rs json N)).
    exact P.
Qed.

Lemma Run_loop_scheduling E (g1 g2 : nat -> string -> Report) len_bits bits :
  (forall i data, same_but_Rules_order (g1 i data) (g2 i data)) ->
  forall i reports1 reports2,
    Forall2 same_but_Rules_order reports1 reports2 ->
    Forall2 same_but_Rules_order
      (fst (Run_loop E g1 len_bits i bits reports1))
      (fst (Run_loop E g2 len_bits i bits reports2)) /\
    snd (Run_loop E g1 len_bits i bits reports1) =
    snd (Run_loop E g2 len_bits i bits reports2).
Proof.
  intros Hg.
  induction bits as [|d bits IH]; intros i reports1 reports2 H;
    cbn [Run_loop].
  - split; [exact H | reflexivity].
  - rewrite <- (Forall2_length H).
    destruct (_ || _)%bool.
    + destruct (_ && _)%bool; [split; [constructor | reflexivity]|].
      apply IH, H.
    + destruct (YAMLToJSON E (TrimSpace d)) as [data|err].
      * apply IH. apply Forall2_app; [exact H|].
        constructor; [apply Hg | constructor].
      * split; [exact H | reflexivity].
Qed.

End Scheduling.

(** C8, as stated, fails: two runs on the same bytes, file name and schema
    configuration return different reports when the goroutines finish in
    another order; the Rules lists are in the order of arrival. *)
Lemma rules_order_depends_on_scheduling :
  let run sch :=
    Run bare_pod NewRuleset (fun _ => sch) "pod.yaml" "kind: Pod" EmptyString in
  map (fun r => map ID (Rules r)) (fst (run fifo)) =
    [["NoSecurityContext"; "ReadOnlyRootFilesystem"; "RunAsNonRoot";
      "RunAsUser"; "Privileged"; "CapSysAdmin"; "CapDropAny"; "CapDropAll";
      "AllowPrivilegeEscalation"]] /\
  map (fun r => map ID (Rules r)) (fst (run lifo)) =
    [["AllowPrivilegeEscalation"; "CapDropAll"; "CapDropAny"; "CapSysAdmin";
      "Privileged"; "RunAsUser"; "RunAsNonRoot"; "ReadOnlyRootFilesystem";
      "NoSecurityContext"]] /\
  run fifo <> run lifo.
Proof.
  cbv zeta. split; [vm_compute; reflexivity|].
  split; [vm_compute; reflexivity|].
  intros H.
  apply (f_equal (fun p => map (fun r => map ID (Rules r)) (fst p))) in H.
  vm_compute in H. discriminate H.
Qed.

(** C8, amended.  For a catalog without repeated rule IDs, two runs on the
    same bytes, file name and schema configuration return the same error
    and lists of reports of the same length whose reports agree one by one
    in Object, FileName, Message, Score, Valid and the three buckets
    (contents and order); their Rules lists hold the same entries, possibly
    in another order. *)
Theorem runs_agree_up_to_Rules_order
  E rs scheds1 scheds2 fileName fileBytes schemaDir :
  NoDup (map rule_ID (rs_Rules rs)) ->
  Forall2 same_but_Rules_order
    (fst (Run E rs scheds1 fileName fileBytes schemaDir))
    (fst (Run E rs scheds2 fileName fileBytes schemaDir)) /\
  snd (Run E rs scheds1 fileName fileBytes schemaDir) =
  snd (Run E rs scheds2 fileName fileBytes schemaDir).
Proof.
  intros N. unfold Run, Run_with.
  destruct (json_Valid E fileBytes).
  - cbn [app fst snd]. split; [|reflexivity].
    constructor; [apply generateReport_scheduling, N | constructor].
  - apply Run_loop_scheduling; [|constructor].
    intros. apply generateReport_scheduling, N.
Qed.

Lemma runs_agree_up_to_Rules_order_witness :
  Forall2 same_but_Rules_order
    (fst (Run privileged_pod NewRuleset (fun _ => fifo) "pods.yaml"
            bad_second_fragment EmptyString))
    (fst (Run privileged_pod NewRuleset (fun _ => lifo) "pods.yaml"
            bad_second_fragment EmptyString)) /\
  snd (Run privileged_pod NewRuleset (fun _ => fifo) "pods.yaml"
         bad_second_fragment EmptyString) =
  snd (Run privileged_pod NewRuleset (fun _ => lifo) "pods.yaml"
         bad_second_fragment EmptyString).
Proof.
  apply (runs_agree_up_to_Rules_order
           privileged_pod NewRuleset (fun _ => fifo) (fun _ => lifo)
           "pods.yaml" bad_second_fragment EmptyString).
  apply distinct_NoDup. vm_compute. reflexivity.
Defined.

(* ================================================================== *)
(** * More on the list of rules *)

Section UniqueRules.

Lemma appendUniqueRule_In l r x :
  In x (appendUniqueRule l r) <-> In x l \/ x = r.
Proof.
  unfold appendUniqueRule.
  destruct (containsRule l r) eqn:C; cbn [negb].
  - apply containsRule_In in C. split; [tauto|].
    intros [H| ->]; assumption.
  - rewrite in_app_iff. simpl. split; intros [H|H]; auto.
    + destruct H as [H|[]]; auto.
Qed.

Lemma appendUniqueRule_NoDup l r : NoDup l -> NoDup (appendUniqueRule l r).
Proof.
  intros N. unfold appendUniqueRule.
  destruct (containsRule l r) eqn:C; cbn [negb]; [exact N|].
  apply NoDup_app; [exact N | repeat constructor; simpl; tauto |].
  intros x Hx [<-|[]].
  apply containsRule_In in Hx. congruence.
Qed.

Lemma unique_from_NoDup_any ch : forall acc,
  NoDup acc -> NoDup (fold_left appendUniqueRule ch acc).
Proof.
  induction ch as [|r ch IH]; intros acc N; cbn [fold_left]; [exact N|].
  apply IH, appendUniqueRule_NoDup, N.
Qed.

Lemma unique_results_nil ch : unique_results ch = [] <-> ch = [].
Proof.
  split; [|intros ->; reflexivity].
  intros H. destruct ch as [|r ch]; [reflexivity|].
  assert (In r (unique_results (r :: ch)))
    by (apply unique_results_In; left; reflexivity).
  rewrite H in H0. destruct H0.
Qed.

Lemma eval_result_of E json rule :
  eval E json rule =
    if applies E json rule
    then [result_of rule (fst (Rule_Eval E rule json))]
    else [].
Proof.
  unfold eval, applies, not_supported, result_of.
  destruct (Rule_Eval E rule json) as [c [[| |]|]]; reflexivity.
Qed.

Lemma dispatch_In E sch rs json ref :
  In ref (dispatch E sch rs json) <->
  exists rule,
    In rule (rs_Rules rs) /\ applies E json rule = true /\
    ref = result_of rule (fst (Rule_Eval E rule json)).
Proof.
  unfold dispatch. rewrite in_flat_map. split.
  - intros (rule & Hin & Href). exists rule.
    rewrite eval_result_of in Href.
    destruct (applies E json rule); [|destruct Href].
    destruct Href as [<-|[]].
    repeat split.
    eapply Permutation_in; [apply arrival_perm | exact Hin].
  - intros (rule & Hin & Happ & ->). exists rule. split.
    + eapply Permutation_in; [apply Permutation_sym, arrival_perm | exact Hin].
    + rewrite eval_result_of, Happ. left. reflexivity.
Qed.

End UniqueRules.

(** X1.  [appendUniqueRule] on a list without repeats: afterwards the rule
    is contained, the list still has no repeats, the old entries come first
    and in their order, appending the same rule again changes nothing, and
    the entries are the old ones and the rule. *)
Theorem appendUniqueRule_keeps_unique l r :
  NoDup l ->
  let l' := appendUniqueRule l r in
  containsRule l' r = true /\
  NoDup l' /\
  (exists tail, l' = l ++ tail) /\
  appendUniqueRule l' r = l' /\
  (forall x, In x l' <-> In x l \/ x = r).
Proof.
  intros N l'. subst l'.
  assert (C : containsRule (appendUniqueRule l r) r = true)
    by (apply containsRule_In, appendUniqueRule_In; right; reflexivity).
  split; [exact C|].
  split; [apply appendUniqueRule_NoDup, N|].
  split; [|split].
  - unfold appendUniqueRule. destruct (negb (containsRule l r)).
    + exists [r]. reflexivity.
    + exists []. rewrite app_nil_r. reflexivity.
  - generalize dependent (appendUniqueRule l r). intros l' C.
    unfold appendUniqueRule. rewrite C. reflexivity.
  - intros x. apply appendUniqueRule_In.
Qed.

Lemma appendUniqueRule_keeps_unique_witness :
  let l' := appendUniqueRule [some_result; other_result] some_result in
  containsRule l' some_result = true /\
  NoDup l' /\
  (exists tail, l' = [some_result; other_result] ++ tail) /\
  appendUniqueRule l' some_result = l' /\
  (forall x, In x l' <-> In x [some_result; other_result] \/ x = some_result).
Proof.
  apply (appendUniqueRule_keeps_unique [some_result; other_result] some_result).
  apply NoDup_cons.
  - simpl. intros [H|[]]. discriminate H.
  - apply NoDup_cons; [simpl; tauto | apply NoDup_nil].
Defined.

(** X2.  For every catalog, document and scheduling, the Rules of a report
    hold no entry twice, and they are exactly the results of the rules of
    the catalog that apply: a rule is left out only when [rule.Eval] answers
    with the not-applicable signal, and any other error is ignored. *)
Theorem Rules_are_the_applicable_rules E rs sch fileName json schemaDir :
  let r := generateReport E rs sch fileName json schemaDir in
  NoDup (Rules r) /\
  forall ref,
    In ref (Rules r) <->
    exists rule,
      In rule (rs_Rules rs) /\ applies E json rule = true /\
      ref = result_of rule (fst (Rule_Eval E rule json)).
Proof.
  intros r. subst r.
  destruct (generateReport_fields E rs sch fileName json schemaDir)
    as (_ & _ & _ & HR & _).
  rewrite HR. split.
  - apply unique_from_NoDup_any. constructor.
  - intros ref. rewrite unique_results_In. apply dispatch_In.
Qed.

(** X3.  The buckets classify the entries of Rules: Critical holds those
    with a match and negative points, Passed those with a match and points
    that are not negative, Advise those without a match and points that are
    not negative. *)
Theorem buckets_classify_Rules E rs sch fileName json schemaDir ref :
  let r := generateReport E rs sch fileName json schemaDir in
  (In ref (Critical (Scoring r)) <->
     In ref (Rules r) /\ 0 < Containers ref /\ Points ref < 0) /\
  (In ref (Passed (Scoring r)) <->
     In ref (Rules r) /\ 0 < Containers ref /\ 0 <= Points ref) /\
  (In ref (Advise (Scoring r)) <->
     In ref (Rules r) /\ Containers ref <= 0 /\ 0 <= Points ref).
Proof.
  intros r. subst r.
  destruct (generateReport_fields E rs sch fileName json schemaDir)
    as (_ & _ & _ & HR & HP & HC & HA & _).
  rewrite HR, HP, HC, HA, !sort_Sort_In, !filter_In, unique_results_In.
  unfold is_critical, is_passed, is_advise.
  rewrite !andb_true_iff, negb_true_iff, !Z.ltb_lt, !Z.leb_le, Z.ltb_ge.
  tauto.
Qed.

(** X4.  The message of a report is decided by its Rules and its Score: a
    report without Rules has score 0, empty buckets and the message that the
    kind is not supported; a report with Rules says Passed when the score is
    not negative and Failed otherwise. *)
Theorem message_follows_Rules_and_Score E rs sch fileName json schemaDir :
  let r := generateReport E rs sch fileName json schemaDir in
  match Rules r with
  | [] =>
      Score r = 0 /\ Scoring r = empty_scoring /\
      Message r = "This resource kind is not supported by badrobot"
  | _ :: _ =>
      Message r =
        if 0 <=? Score r
        then "Passed with a score of " +++ Sprintf_int (Score r) +++ " points"
        else "Failed with a score of " +++ Sprintf_int (Score r) +++ " points"
  end.
Proof.
  intros r.
  destruct (generateReport_fields E rs sch fileName json schemaDir)
    as (_ & _ & _ & HR & HP & HC & HA & HS & HM & _).
  fold r in HR, HP, HC, HA, HS, HM. clearbody r.
  destruct (dispatch E sch rs json) as [|ref ch] eqn:D.
  - rewrite HR. cbn [unique_results fold_left].
    split; [exact HS|]. split; [|rewrite HM; reflexivity].
    destruct (Scoring r) as [adv pas cri].
    cbn [Advise Passed Critical] in *. subst. reflexivity.
  - destruct (Rules r) eqn:U.
    + symmetry in HR.
      apply (proj1 (unique_results_nil _)) in HR. discriminate.
    + rewrite HM. unfold verdict. cbn [List.length].
      destruct (Z.ltb_spec (Z.of_nat (S (List.length ch))) 1); [lia|].
      reflexivity.
Qed.

(* ================================================================== *)
(** * Documents of a kind the catalog does not know *)

Section Unsupported.

Lemma Report_eq (r : Report) obj fn msg sc va ru sg :
  Object r = obj -> FileName r = fn -> Message r = msg -> Score r = sc ->
  Valid r = va -> Rules r = ru -> Scoring r = sg ->
  r = mkReport obj fn msg sc va ru sg.
Proof. destruct r. cbn. intros. subst. reflexivity. Qed.

Lemma RuleScoring_eq (g : RuleScoring) a p c :
  Advise g = a -> Passed g = p -> Critical g = c -> g = mkRuleScoring a p c.
Proof. destruct g. cbn. intros. subst. reflexivity. Qed.

Lemma flat_map_eval_nil E json rules :
  flat_map (eval E json) rules = [] <->
  forallb (fun rule => negb (applies E json rule)) rules = true.
Proof.
  induction rules as [|rule rules IH]; cbn [flat_map forallb].
  - tauto.
  - rewrite eval_result_of, andb_true_iff, <- IH.
    destruct (applies E json rule); cbn [negb app]; split.
    + discriminate.
    + intros [H _]. discriminate.
    + tauto.
    + tauto.
Qed.

Lemma forallb_perm (f : Rule -> bool) l1 l2 :
  Permutation l1 l2 -> forallb f l1 = forallb f l2.
Proof.
  induction 1; cbn [forallb].
  - reflexivity.
  - rewrite IHPermutation. reflexivity.
  - destruct (f x), (f y); reflexivity.
  - congruence.
Qed.

Lemma dispatch_nil E sch rs json :
  dispatch E sch rs json = [] <->
  forallb (fun rule => negb (applies E json rule)) (rs_Rules rs) = true.
Proof.
  unfold dispatch. rewrite flat_map_eval_nil.
  rewrite (forallb_perm _ _ _ (arrival_perm sch (rs_Rules rs))). tauto.
Qed.

End Unsupported.

(** X5.  A report is the not-supported report (valid, score 0, no Rules,
    empty buckets, the message that the kind is not supported) exactly when
    no rule of the catalog applies to the document. *)
Theorem unsupported_kind_report E rs sch fileName json schemaDir :
  generateReport E rs sch fileName json schemaDir =
    unsupported_report E fileName json <->
  forallb (fun rule => negb (applies E json rule)) (rs_Rules rs) = true.
Proof.
  rewrite <- (dispatch_nil E sch rs json).
  destruct (generateReport_fields E rs sch fileName json schemaDir)
    as (HO & HF & HV & HR & HP & HC & HA & HS & HM & _).
  split.
  - intros H. rewrite H in HR. cbn [Rules unsupported_report] in HR.
    symmetry in HR. apply (proj1 (unique_results_nil _)) in HR. exact HR.
  - intros D. rewrite D in *.
    apply Report_eq.
    + exact HO.
    + exact HF.
    + rewrite HM. reflexivity.
    + exact HS.
    + exact HV.
    + exact HR.
    + apply RuleScoring_eq; assumption.
Qed.

(* ================================================================== *)
(** * Bounds of the score *)

Section ScoreBounds.

Lemma results_bounds_filter (p : RuleRef -> bool) l :
  results_loss l <= total_Points (filter p l) <= results_gain l.
Proof.
  unfold results_loss, results_gain, total_Points.
  induction l as [|a l IH]; cbn [filter map fold_right]; [lia|].
  destruct (p a); cbn [map fold_right]; lia.
Qed.

Lemma results_bounds_eval E json rules :
  loss rules <= results_loss (flat_map (eval E json) rules) /\
  results_gain (flat_map (eval E json) rules) <= gain rules.
Proof.
  unfold loss, gain, results_loss, results_gain.
  induction rules as [|r rules IH]; cbn [flat_map map fold_right]; [lia|].
  rewrite !map_app, !fold_right_app.
  rewrite eval_result_of.
  destruct (applies E json r); cbn [map fold_right result_of Points]; lia.
Qed.

Lemma gain_perm l1 l2 : Permutation l1 l2 -> gain l1 = gain l2.
Proof. unfold gain. induction 1; cbn [map fold_right]; lia. Qed.

Lemma loss_perm l1 l2 : Permutation l1 l2 -> loss l1 = loss l2.
Proof. unfold loss. induction 1; cbn [map fold_right]; lia. Qed.

Lemma matched_between E sch rs json :
  loss (rs_Rules rs) <=
    total_Points (filter is_matched (dispatch E sch rs json)) <=
  gain (rs_Rules rs).
Proof.
  unfold dispatch.
  pose proof (results_bounds_filter is_matched
                (flat_map (eval E json) (arrival sch (rs_Rules rs)))).
  pose proof (results_bounds_eval E json (arrival sch (rs_Rules rs))).
  rewrite (gain_perm _ _ (arrival_perm sch (rs_Rules rs))) in *.
  rewrite (loss_perm _ _ (arrival_perm sch (rs_Rules rs))) in *.
  lia.
Qed.

End ScoreBounds.

(** X6.  When the sums of the negative and of the positive points of the
    catalog are [int] values, the score of every report lies between
    them. *)
Theorem score_between_loss_and_gain E rs sch fileName json schemaDir :
  - 2 ^ 63 <= loss (rs_Rules rs) ->
  gain (rs_Rules rs) < 2 ^ 63 ->
  loss (rs_Rules rs) <=
    Score (generateReport E rs sch fileName json schemaDir) <=
  gain (rs_Rules rs).
Proof.
  intros Hl Hg.
  destruct (generateReport_fields E rs sch fileName json schemaDir)
    as (_ & _ & _ & _ & _ & _ & _ & HS & _).
  rewrite HS, sum_Points_wrap.
  pose proof (matched_between E sch rs json) as B.
  rewrite int_wrap_small; [exact B | unfold in_range; lia].
Qed.

Lemma score_between_loss_and_gain_witness :
  -254 <=
    Score (generateReport privileged_pod NewRuleset lifo
             "pod.json" pod_json EmptyString) <= 5.
Proof.
  apply (score_between_loss_and_gain
           privileged_pod NewRuleset lifo "pod.json" pod_json EmptyString).
  - vm_compute. discriminate.
  - vm_compute. reflexivity.
Defined.

(** X7.  With the catalog of [NewRuleset] the score of every report is at
    least -254 and at most 5. *)
Theorem NewRuleset_score_range :
  (forall E sch fileName json schemaDir,
      -254 <= Score (generateReport E NewRuleset sch fileName json schemaDir)
           <= 5) /\
  (forall E scheds fileName fileBytes schemaDir,
      Forall (fun r => -254 <= Score r <= 5)
             (fst (Run E NewRuleset scheds fileName fileBytes schemaDir))).
Proof.
  assert (H : forall E sch fileName json schemaDir,
             -254 <= Score (generateReport E NewRuleset sch
                              fileName json schemaDir) <= 5).
  { intros.
    destruct (generateReport_fields E NewRuleset sch fileName json schemaDir)
      as (_ & _ & _ & _ & _ & _ & _ & HS & _).
    rewrite HS, sum_Points_wrap.
    pose proof (matched_between E sch NewRuleset json) as B.
    change (loss (rs_Rules NewRuleset)) with (-254) in B.
    change (gain (rs_Rules NewRuleset)) with 5 in B.
    rewrite int_wrap_small; [exact B | unfold in_range; lia]. }
  split; [exact H|].
  intros. apply Run_with_Forall. intros. apply H.
Qed.

(* ================================================================== *)
(** * The buckets of the catalog of [NewRuleset] *)

Section CatalogOrder.

Lemma precedes_same_weight a b :
  Weight a = Weight b -> ID a <> ID b -> precedes a b ->
  String.ltb (ID a) (ID b) = true.
Proof.
  intros Hw Hid [H|[_ H]]; [lia|].
  rewrite string_leb_ltb, negb_true_iff in H.
  destruct (String.ltb (ID a) (ID b)) eqn:L; [reflexivity|].
  exfalso. apply Hid. apply string_ltb_total; assumption.
Qed.

Lemma priority_order_by_ID l :
  Forall (fun r => Weight r = 0) l -> NoDup (map ID l) ->
  in_priority_order l -> ascending_by_ID l.
Proof.
  unfold in_priority_order, ascending_by_ID.
  intros W N S. induction S as [|a l S IH F]; [constructor|].
  inversion W as [|? ? Wa Wl]; subst.
  inversion N as [|? ? Na Nl]; subst.
  constructor; [apply IH; assumption|].
  rewrite Forall_forall in *. intros b Hb.
  apply precedes_same_weight.
  - rewrite Wa, (Wl b Hb). reflexivity.
  - intros Hid. apply Na. rewrite Hid. apply in_map. exact Hb.
  - apply F, Hb.
Qed.

Lemma dispatch_Weight E sch rs json :
  Forall (fun rule => rule_Weight rule = 0) (rs_Rules rs) ->
  Forall (fun r => Weight r = 0) (dispatch E sch rs json).
Proof.
  intros H. rewrite Forall_forall in *. intros ref Href.
  apply dispatch_In in Href. destruct Href as (rule & Hin & _ & ->).
  apply H, Hin.
Qed.

Lemma bucket_by_ID (p : RuleRef -> bool) ch :
  Forall (fun r => Weight r = 0) ch -> NoDup (map ID ch) ->
  ascending_by_ID (sort_Sort (filter p ch)).
Proof.
  intros W N. apply priority_order_by_ID.
  - rewrite Forall_forall in *. intros r Hr.
    apply sort_Sort_In, filter_In in Hr. apply W, Hr.
  - eapply Permutation_NoDup;
      [apply Permutation_map, Permutation_sym, sort_Sort_perm|].
    apply filter_NoDup_ID, N.
  - apply sort_Sort_sorted.
Qed.

Lemma NewRuleset_weights :
  Forall (fun rule => rule_Weight rule = 0) (rs_Rules NewRuleset).
Proof. repeat constructor. Qed.

End CatalogOrder.

(** X8.  No rule of [NewRuleset] sets a weight (the catalog sets Advise,
    and [eval] copies Weight), so in every report built with that catalog
    every entry has weight 0 and each of Critical, Passed and Advise is in
    strictly ascending order of rule ID. *)
Theorem NewRuleset_buckets_ascending_by_ID E sch fileName json schemaDir :
  let r := generateReport E NewRuleset sch fileName json schemaDir in
  Forall (fun ref => Weight ref = 0) (Rules r) /\
  ascending_by_ID (Critical (Scoring r)) /\
  ascending_by_ID (Passed (Scoring r)) /\
  ascending_by_ID (Advise (Scoring r)).
Proof.
  intros r. subst r.
  destruct (generateReport_fields E NewRuleset sch fileName json schemaDir)
    as (_ & _ & _ & HR & HP & HC & HA & _).
  pose proof (dispatch_Weight E sch NewRuleset json NewRuleset_weights) as W.
  pose proof (dispatch_NoDup_ID E sch NewRuleset json NewRuleset_IDs_distinct)
    as N.
  rewrite HR, HP, HC, HA. split.
  - rewrite Forall_forall in *. intros ref Href.
    apply (proj1 (unique_results_In _ _)) in Href. apply W, Href.
  - repeat split; apply bucket_by_ID; assumption.
Qed.

(* ================================================================== *)
(** * Scheduling, for any catalog *)

Section AnyCatalog.

Lemma unique_results_perm ch1 ch2 :
  Permutation ch1 ch2 ->
  Permutation (unique_results ch1) (unique_results ch2).
Proof.
  intros P. apply NoDup_Permutation.
  - apply unique_from_NoDup_any. constructor.
  - apply unique_from_NoDup_any. constructor.
  - intros x. rewrite !unique_results_In.
    split; apply Permutation_in; [exact P | apply Permutation_sym, P].
Qed.

Lemma sorted_filter_perm (p : RuleRef -> bool) ch1 ch2 :
  Permutation ch1 ch2 ->
  Permutation (sort_Sort (filter p ch1)) (sort_Sort (filter p ch2)).
Proof.
  intros P.
  eapply perm_trans; [apply sort_Sort_perm|].
  eapply perm_trans; [apply filter_perm, P|].
  apply Permutation_sym, sort_Sort_perm.
Qed.

End AnyCatalog.

(** X9.  For every catalog, also one that lists a rule ID twice, the order
    in which the goroutines deliver their results changes neither Object,
    FileName, Message, Score nor Valid of the report, and changes Rules and
    the three buckets at most in the order of their entries. *)
Theorem scheduling_keeps_score_and_contents
  E rs sch1 sch2 fileName json schemaDir :
  same_up_to_order
    (generateReport E rs sch1 fileName json schemaDir)
    (generateReport E rs sch2 fileName json schemaDir).
Proof.
  destruct (generateReport_fields E rs sch1 fileName json schemaDir)
    as (O1 & F1 & V1 & R1 & P1 & C1 & A1 & S1 & M1 & _).
  destruct (generateReport_fields E rs sch2 fileName json schemaDir)
    as (O2 & F2 & V2 & R2 & P2 & C2 & A2 & S2 & M2 & _).
  pose proof (dispatch_perm E sch1 sch2 rs json) as P.
  assert (HS : Score (generateReport E rs sch1 fileName json schemaDir) =
               Score (generateReport E rs sch2 fileName json schemaDir)).
  { rewrite S1, S2, !sum_Points_wrap. f_equal.
    apply total_Points_perm, filter_perm, P. }
  unfold same_up_to_order.
  rewrite O1, O2, F1, F2, V1, V2, M1, M2, HS, R1, R2, P1, P2, C1, C2, A1, A2.
  rewrite (Permutation_length P).
  repeat split;
    (apply unique_results_perm, P) || (apply sorted_filter_perm, P).
Qed.

(* ================================================================== *)
(** * Outcomes of a run *)

Section Outcomes.

Variable E : Externals.
Variable generate : nat -> string -> Report.

Lemma Run_loop_unskipped len_bits i d bits reports :
  skipped d = false ->
  Run_loop E generate len_bits i (d :: bits) reports =
    match YAMLToJSON E (TrimSpace d) with
    | inr err => (reports, Some (OtherError err))
    | inl data =>
        Run_loop E generate len_bits (S i) bits (reports ++ [generate i data])
    end.
Proof.
  intros H. cbn [Run_loop]. unfold skipped, is_blank in H. rewrite H.
  reflexivity.
Qed.

Lemma last_index i (bits : list string) :
  (i + List.length (bits) =? i)%nat = true <-> bits = [].
Proof.
  rewrite Nat.eqb_eq. destruct bits; cbn [List.length]; split;
    try reflexivity; try discriminate; lia.
Qed.

Lemma Run_loop_not_invalid len_bits bits : forall i reports,
  reports <> [] ->
  snd (Run_loop E generate len_bits i bits reports) <> Some InvalidInputError.
Proof.
  induction bits as [|d bits IH]; intros i reports Hr.
  - cbn. discriminate.
  - destruct (skipped d) eqn:Hs.
    + rewrite Run_loop_skipped by exact Hs.
      destruct reports as [|r reports]; [congruence|].
      cbn [List.length Nat.eqb andb]. rewrite andb_false_r.
      apply IH. discriminate.
    + rewrite Run_loop_unskipped by exact Hs.
      destruct (YAMLToJSON E (TrimSpace d)) as [data|err].
      * apply IH. destruct reports; discriminate.
      * cbn. discriminate.
Qed.

Lemma Run_loop_invalid_iff bits : forall i,
  bits <> [] ->
  (snd (Run_loop E generate (i + List.length bits) i bits []) =
     Some InvalidInputError <->
   forallb skipped bits = true).
Proof.
  induction bits as [|d bits IH]; intros i Hne; [congruence|].
  cbn [forallb]. destruct (skipped d) eqn:Hs; cbn [andb].
  - rewrite Run_loop_skipped by exact Hs.
    destruct bits as [|d' bits].
    + cbn [List.length]. rewrite Nat.eqb_refl. cbn. tauto.
    + replace (i + List.length (d :: d' :: bits))%nat
        with (S i + List.length (d' :: bits))%nat by (cbn [List.length]; lia).
      replace ((S i + List.length (d' :: bits) =? i + 1)%nat) with false
        by (symmetry; apply Nat.eqb_neq; cbn [List.length]; lia).
      cbn [andb]. apply IH. discriminate.
  - rewrite Run_loop_unskipped by exact Hs. split; [|discriminate].
    destruct (YAMLToJSON E (TrimSpace d)) as [data|err].
    + intros H. exfalso. revert H. apply Run_loop_not_invalid. discriminate.
    + cbn. discriminate.
Qed.

Lemma Run_loop_success_nonempty bits : forall i reports,
  bits <> [] \/ reports <> [] ->
  snd (Run_loop E generate (i + List.length bits) i bits reports) = None ->
  fst (Run_loop E generate (i + List.length bits) i bits reports) <> [].
Proof.
  induction bits as [|d bits IH]; intros i reports Hne.
  - cbn. intros _. destruct Hne; congruence.
  - replace (i + List.length (d :: bits))%nat
      with (S i + List.length bits)%nat by (cbn [List.length]; lia).
    destruct (skipped d) eqn:Hs.
    + rewrite Run_loop_skipped by exact Hs.
      destruct ((S i + List.length bits =? i + 1)%nat &&
                (List.length reports =? 0)%nat)%bool eqn:C;
        [cbn; discriminate|].
      apply IH.
      apply andb_false_iff in C. destruct C as [C|C].
      * left. intros ->. apply Nat.eqb_neq in C. cbn [List.length] in C. lia.
      * right. intros ->. discriminate.
    + rewrite Run_loop_unskipped by exact Hs.
      destruct (YAMLToJSON E (TrimSpace d)) as [data|err];
        [|cbn; discriminate].
      apply IH. right. destruct reports; discriminate.
Qed.

Lemma Run_loop_success bits : forall i reports,
  forallb (passes E) bits = true ->
  reports <> [] \/ existsb (fun d => negb (skipped d)) bits = true ->
  Run_loop E generate (i + List.length bits) i bits reports =
    (reports ++ built E generate i bits, None).
Proof.
  induction bits as [|d bits IH]; intros i reports Hall Hsome.
  - cbn. rewrite app_nil_r. reflexivity.
  - replace (i + List.length (d :: bits))%nat
      with (S i + List.length bits)%nat by (cbn [List.length]; lia).
    cbn [forallb] in Hall. apply andb_true_iff in Hall.
    destruct Hall as [Hd Hall].
    cbn [built existsb] in *.
    destruct (skipped d) eqn:Hs.
    + rewrite Run_loop_skipped by exact Hs.
      cbn [negb orb] in Hsome.
      replace ((S i + List.length bits =? i + 1)%nat &&
               (List.length reports =? 0)%nat)%bool with false.
      * apply IH; assumption.
      * symmetry. apply andb_false_iff.
        destruct Hsome as [Hr|Hx].
        -- right. destruct reports; [congruence | reflexivity].
        -- left. apply Nat.eqb_neq. destruct bits; [discriminate|].
           cbn [List.length]. lia.
    + rewrite Run_loop_unskipped by exact Hs.
      unfold passes in Hd. rewrite Hs in Hd. cbn [orb] in Hd.
      destruct (YAMLToJSON E (TrimSpace d)) as [data|err]; [|discriminate].
      rewrite IH; [rewrite <- app_assoc; reflexivity | exact Hall |].
      left. destruct reports; discriminate.
Qed.

End Outcomes.

Section Outcomes2.

Variable E : Externals.

(** The error and the number of reports do not depend on how the reports
    are built. *)
Lemma Run_loop_shape (g1 g2 : nat -> string -> Report) len_bits bits :
  forall i reports1 reports2,
    List.length reports1 = List.length reports2 ->
    List.length (fst (Run_loop E g1 len_bits i bits reports1)) =
    List.length (fst (Run_loop E g2 len_bits i bits reports2)) /\
    snd (Run_loop E g1 len_bits i bits reports1) =
    snd (Run_loop E g2 len_bits i bits reports2).
Proof.
  induction bits as [|d bits IH]; intros i reports1 reports2 H;
    cbn [Run_loop].
  - split; [exact H | reflexivity].
  - rewrite H.
    destruct (_ || _)%bool.
    + destruct (_ && _)%bool; [split; reflexivity | apply IH, H].
    + destruct (YAMLToJSON E (TrimSpace d)) as [data|err].
      * apply IH. rewrite !length_app, H. reflexivity.
      * split; [exact H | reflexivity].
Qed.

Lemma Run_with_shape (g1 g2 : nat -> string -> Report) fileBytes :
  List.length (fst (Run_with E g1 fileBytes)) =
  List.length (fst (Run_with E g2 fileBytes)) /\
  snd (Run_with E g1 fileBytes) = snd (Run_with E g2 fileBytes).
Proof.
  unfold Run_with. destruct (json_Valid E fileBytes).
  - split; reflexivity.
  - apply Run_loop_shape. reflexivity.
Qed.

End Outcomes2.

Lemma Run_invalid_iff E rs scheds fileName fileBytes schemaDir :
  snd (Run E rs scheds fileName fileBytes schemaDir) =
    Some InvalidInputError <->
  json_Valid E fileBytes = false /\
  forallb skipped (Split fileBytes (separator E fileBytes)) = true.
Proof.
  unfold Run, Run_with. destruct (json_Valid E fileBytes).
  - cbn. split; [discriminate | intros [? _]; discriminate].
  - fold (separator E fileBytes).
    rewrite (Run_loop_invalid_iff E _
               (Split fileBytes (separator E fileBytes)) O)
      by apply Split_not_nil.
    tauto.
Qed.

Lemma Run_invalid_no_reports E rs scheds fileName fileBytes schemaDir :
  snd (Run E rs scheds fileName fileBytes schemaDir) =
    Some InvalidInputError ->
  Run E rs scheds fileName fileBytes schemaDir = ([], Some InvalidInputError).
Proof.
  intros H. apply Run_invalid_iff in H. destruct H as [HJ Hall].
  apply Run_with_all_skipped; assumption.
Qed.

(** X10.  [Run] fails with the invalid-input error exactly when the input
    is not JSON and every fragment is empty or a bare "---" after trimming;
    it then returns no report. *)
Theorem invalid_input_iff_all_blank E rs scheds fileName fileBytes schemaDir :
  let all_blank :=
    json_Valid E fileBytes = false /\
    forallb skipped (Split fileBytes (separator E fileBytes)) = true in
  (snd (Run E rs scheds fileName fileBytes schemaDir) =
     Some InvalidInputError <-> all_blank) /\
  (Run E rs scheds fileName fileBytes schemaDir =
     ([], Some InvalidInputError) <-> all_blank).
Proof.
  cbv zeta. split; [apply Run_invalid_iff|]. split.
  - intros R.
    apply (proj1 (Run_invalid_iff E rs scheds fileName fileBytes schemaDir)).
    rewrite R. reflexivity.
  - intros H. apply Run_invalid_no_reports.
    apply (proj2 (Run_invalid_iff E rs scheds fileName fileBytes schemaDir)).
    exact H.
Qed.

(** X11.  [Run] never returns an empty list of reports without an error;
    with the invalid-input error it returns no report. *)
Theorem Run_reports_or_error E rs scheds fileName fileBytes schemaDir :
  match Run E rs scheds fileName fileBytes schemaDir with
  | (reports, None) => reports <> []
  | (reports, Some InvalidInputError) => reports = []
  | (_, Some _) => True
  end.
Proof.
  destruct (Run E rs scheds fileName fileBytes schemaDir)
    as [reports [[| |]|]] eqn:R; try exact I.
  - pose proof (Run_invalid_no_reports E rs scheds fileName fileBytes
                  schemaDir) as X.
    rewrite R in X. specialize (X eq_refl). congruence.
  - pose proof (f_equal snd R) as R2. pose proof (f_equal fst R) as R1.
    cbn [fst snd] in R1, R2. rewrite <- R1.
    unfold Run, Run_with in *. destruct (json_Valid E fileBytes) eqn:HJ.
    + cbn. discriminate.
    + apply (Run_loop_success_nonempty E _ _ O);
        [left; apply Split_not_nil | exact R2].
Qed.

(** X12.  When the input is not JSON, every fragment is skipped or converts
    and at least one is not skipped, [Run] returns no error and one report
    for each fragment that is not skipped, in the order of the fragments. *)
Theorem successful_run E rs scheds fileName fileBytes schemaDir :
  let bits := Split fileBytes (separator E fileBytes) in
  json_Valid E fileBytes = false ->
  forallb (passes E) bits = true ->
  existsb (fun d => negb (skipped d)) bits = true ->
  Run E rs scheds fileName fileBytes schemaDir =
    (built E (fun i data =>
                generateReport E rs (scheds i) fileName data schemaDir) O bits,
     None) /\
  List.length (fst (Run E rs scheds fileName fileBytes schemaDir)) =
    List.length (filter (fun d => negb (skipped d)) bits).
Proof.
  intros bits HJ Hall Hsome.
  assert (R : Run E rs scheds fileName fileBytes schemaDir =
              (built E (fun i data =>
                          generateReport E rs (scheds i) fileName data
                            schemaDir) O bits, None)).
  { unfold Run, Run_with. rewrite HJ.
    fold (separator E fileBytes). fold bits.
    change (List.length bits) with (0 + List.length bits)%nat.
    rewrite Run_loop_success; [reflexivity | exact Hall | right; exact Hsome]. }
  split; [exact R|]. rewrite R. cbn [fst].
  clear R Hsome. generalize O.
  induction bits as [|d bits IH]; intros i; [reflexivity|].
  cbn [forallb] in Hall. apply andb_true_iff in Hall. destruct Hall as [Hd Hall].
  cbn [built filter]. unfold passes in Hd.
  destruct (skipped d); cbn [negb orb] in *.
  - apply IH, Hall.
  - destruct (YAMLToJSON E (TrimSpace d)); [|discriminate].
    cbn [List.length]. f_equal. apply IH, Hall.
Qed.

Lemma successful_run_witness :
  let bits := ["kind: Pod"; "kind: Pod" +++ LF] in
  let fileBytes := "kind: Pod" +++ LF +++ "---" +++ LF +++ "kind: Pod" +++ LF in
  Run bare_pod NewRuleset (fun _ => fifo) "pods.yaml" fileBytes EmptyString =
    (built bare_pod
       (fun i data =>
          generateReport bare_pod NewRuleset fifo "pods.yaml" data EmptyString)
       O bits, None) /\
  List.length
    (fst (Run bare_pod NewRuleset (fun _ => fifo) "pods.yaml" fileBytes
            EmptyString)) =
  List.length (filter (fun d => negb (skipped d)) bits).
Proof.
  apply (successful_run bare_pod NewRuleset (fun _ => fifo) "pods.yaml"
           ("kind: Pod" +++ LF +++ "---" +++ LF +++ "kind: Pod" +++ LF)
           EmptyString); reflexivity.
Defined.

(** X13.  Which error [Run] returns and how many reports it returns is
    decided by the input bytes and the converters alone: it is the same for
    every catalog, scheduling, file name and schema directory, and the same
    in the copy that validates. *)
Theorem run_shape_is_independent_of_rules
  E rs1 rs2 scheds1 scheds2 fileName1 fileName2 schemaDir1 schemaDir2
  fileBytes :
  let run1 := Run E rs1 scheds1 fileName1 fileBytes schemaDir1 in
  let run2 := Run E rs2 scheds2 fileName2 fileBytes schemaDir2 in
  let run3 := Validating.Run E rs2 scheds2 fileName2 fileBytes schemaDir2 in
  (List.length (fst run1) = List.length (fst run2) /\ snd run1 = snd run2) /\
  (List.length (fst run1) = List.length (fst run3) /\ snd run1 = snd run3).
Proof.
  cbv zeta. split; apply Run_with_shape.
Qed.

(* ================================================================== *)
(** * Fragments *)

Section Fragments.

Lemma prefix_app sub post : String.prefix sub (sub +++ post) = true.
Proof.
  induction sub as [|c sub IH]; cbn.
  - destruct post; reflexivity.
  - destruct (Ascii.ascii_dec c c); [exact IH | congruence].
Qed.

Lemma prefix_split sub : forall s,
  String.prefix sub s = true -> exists post, s = sub +++ post.
Proof.
  induction sub as [|c sub IH]; intros s H.
  - exists s. reflexivity.
  - destruct s as [|d s]; cbn in H; [discriminate|].
    destruct (Ascii.ascii_dec c d) as [->|]; [|discriminate].
    destruct (IH s H) as [post ->]. exists post. reflexivity.
Qed.

Lemma Contains_iff s : forall sub,
  Contains s sub = true <-> exists pre post, s = pre +++ sub +++ post.
Proof.
  induction s as [|c s IH]; intros sub; cbn [Contains];
    rewrite orb_true_iff.
  - split.
    + intros [H|H]; [|discriminate].
      apply prefix_split in H. destruct H as [post H].
      exists EmptyString, post. exact H.
    + intros (pre & post & H). left.
      destruct pre; [|discriminate]. cbn in H. rewrite H. apply prefix_app.
  - rewrite IH. split.
    + intros [H|(pre & post & ->)].
      * apply prefix_split in H. destruct H as [post H].
        exists EmptyString, post. exact H.
      * exists (String c pre), post. reflexivity.
    + intros (pre & post & H). destruct pre as [|d pre].
      * left. cbn in H. rewrite H. apply prefix_app.
      * right. cbn in H. injection H as -> ->. exists pre, post. reflexivity.
Qed.

Lemma split_skip sep t : forall cur s,
  split_from sep (String.length t) cur (t +++ s) = split_from sep O cur s.
Proof.
  induction t as [|c t IH]; intros cur s; [reflexivity|].
  cbn [String.length String.append split_from]. apply IH.
Qed.

Lemma concat_cons sep x l :
  l <> [] -> String.concat sep (x :: l) = x +++ sep +++ String.concat sep l.
Proof. destruct l; [congruence | reflexivity]. Qed.

Lemma split_from_rejoin sep n : forall s cur,
  (String.length s <= n)%nat -> sep <> EmptyString ->
  String.concat sep (split_from sep O cur s) = cur +++ s.
Proof.
  induction n as [|n IH]; intros s cur Hn Hsep.
  - destruct s; [|cbn in Hn; lia]. cbn. rewrite append_empty_r. reflexivity.
  - destruct s as [|c s]; [cbn; rewrite append_empty_r; reflexivity|].
    cbn [split_from].
    destruct (String.prefix sep (String c s)) eqn:P.
    + apply prefix_split in P. destruct P as [post P].
      destruct sep as [|c' sep']; [congruence|].
      cbn [String.append] in P. injection P as <- ->.
      cbn [String.length Nat.pred]. rewrite split_skip.
      rewrite concat_cons by apply split_from_not_nil.
      rewrite IH; [reflexivity | | exact Hsep].
      cbn [String.length] in Hn. rewrite append_length in Hn. lia.
    + rewrite IH; [|cbn [String.length] in Hn; lia | exact Hsep].
      rewrite append_assoc. reflexivity.
Qed.

Lemma split_from_whole sep s : forall cur,
  Contains s sep = false -> split_from sep O cur s = [cur +++ s].
Proof.
  induction s as [|c s IH]; intros cur H.
  - cbn. rewrite append_empty_r. reflexivity.
  - cbn [Contains] in H. apply orb_false_iff in H. destruct H as [P H].
    cbn [split_from]. rewrite P, IH by exact H.
    rewrite append_assoc. reflexivity.
Qed.

Lemma separator_not_empty E fileBytes : separator E fileBytes <> EmptyString.
Proof.
  unfold separator, detectLineBreak.
  destruct (_ && _)%bool; discriminate.
Qed.

End Fragments.

(** X14.  [Run] loses nothing when it splits: the fragments, joined again
    with the separator, are the input bytes. *)
Theorem fragments_rejoin E fileBytes :
  String.concat (separator E fileBytes)
                (Split fileBytes (separator E fileBytes)) = fileBytes.
Proof.
  unfold Split.
  rewrite (split_from_rejoin _ (String.length fileBytes));
    [reflexivity | lia | apply separator_not_empty].
Qed.

(** X15.  On a host other than Windows the separator has Unix line ends,
    whatever the input holds.  An input without that separator, such as
    documents divided by a "---" line with Windows line ends, is one
    fragment: [Run] returns at most one report, built from the whole
    input. *)
Theorem unsplit_input_is_one_document
  E rs scheds fileName fileBytes schemaDir :
  (GOOS E =? "windows")%string = false ->
  json_Valid E fileBytes = false ->
  Contains fileBytes (LF +++ "---" +++ LF) = false ->
  separator E fileBytes = LF +++ "---" +++ LF /\
  Split fileBytes (separator E fileBytes) = [fileBytes] /\
  Run E rs scheds fileName fileBytes schemaDir =
    if skipped fileBytes then ([], Some InvalidInputError)
    else
      match YAMLToJSON E (TrimSpace fileBytes) with
      | inl data =>
          ([generateReport E rs (scheds O) fileName data schemaDir], None)
      | inr err => ([], Some (OtherError err))
      end.
Proof.
  intros HG HJ HC.
  assert (HS : separator E fileBytes = LF +++ "---" +++ LF).
  { unfold separator, detectLineBreak. rewrite HG, andb_false_r.
    reflexivity. }
  assert (HB : Split fileBytes (separator E fileBytes) = [fileBytes]).
  { rewrite HS. unfold Split. rewrite split_from_whole by exact HC.
    reflexivity. }
  split; [exact HS|]. split; [exact HB|].
  unfold Run, Run_with. rewrite HJ. fold (separator E fileBytes). rewrite HB.
  cbn [List.length]. destruct (skipped fileBytes) eqn:Hs.
  - rewrite Run_loop_skipped by exact Hs. reflexivity.
  - rewrite Run_loop_unskipped by exact Hs.
    destruct (YAMLToJSON E (TrimSpace fileBytes)); reflexivity.
Qed.

Lemma unsplit_input_is_one_document_witness :
  separator bare_pod crlf_documents = LF +++ "---" +++ LF /\
  Split crlf_documents (separator bare_pod crlf_documents) =
    [crlf_documents] /\
  Run bare_pod NewRuleset (fun _ => fifo) "roles.yaml" crlf_documents
      EmptyString =
    ([generateReport bare_pod NewRuleset fifo "roles.yaml" crlf_documents
        EmptyString], None).
Proof.
  apply (unsplit_input_is_one_document
           bare_pod NewRuleset (fun _ => fifo) "roles.yaml" crlf_documents
           EmptyString); reflexivity.
Defined.

(* ================================================================== *)
(** * The matcher finds the language *)

Section RegexpFacts.

Import Regexp.

Lemma append_nil_inv s t :
  s +++ t = EmptyString -> s = EmptyString /\ t = EmptyString.
Proof. destruct s; cbn; [tauto | discriminate]. Qed.

Lemma lang_Cat_iff r1 r2 s :
  lang (Cat r1 r2) s <->
  exists s1 s2, s = s1 +++ s2 /\ lang r1 s1 /\ lang r2 s2.
Proof.
  split.
  - intros H. inversion H; subst. eauto.
  - intros (s1 & s2 & -> & H1 & H2). constructor; assumption.
Qed.

Lemma lang_Alt_iff r1 r2 s : lang (Alt r1 r2) s <-> lang r1 s \/ lang r2 s.
Proof.
  split.
  - intros H. inversion H; subst; tauto.
  - intros [H|H]; [apply lang_Alt_l | apply lang_Alt_r]; exact H.
Qed.

Lemma lang_Eps_iff s : lang Eps s <-> s = EmptyString.
Proof.
  split; [intros H; inversion H; reflexivity | intros ->; constructor].
Qed.

Lemma lang_Sym_iff p s :
  lang (Sym p) s <-> exists c, s = String c EmptyString /\ p c = true.
Proof.
  split.
  - intros H. inversion H; subst. eauto.
  - intros (c & -> & H). constructor. exact H.
Qed.

Lemma lang_Void s : ~ lang Void s.
Proof. intros H. inversion H. Qed.

Lemma nullable_lang r : nullable r = true <-> lang r EmptyString.
Proof.
  induction r as [| |p|r1 IH1 r2 IH2|r1 IH1 r2 IH2|r IH]; cbn [nullable].
  - split; [discriminate | intros H; destruct (lang_Void _ H)].
  - split; [constructor | reflexivity].
  - split; [discriminate|]. intros H. inversion H.
  - rewrite andb_true_iff, IH1, IH2, lang_Cat_iff. split.
    + intros [H1 H2]. exists EmptyString, EmptyString. auto.
    + intros (s1 & s2 & H & H1 & H2). symmetry in H.
      apply append_nil_inv in H. destruct H as [-> ->]. auto.
  - rewrite orb_true_iff, IH1, IH2, lang_Alt_iff. tauto.
  - split; [constructor | reflexivity].
Qed.

Lemma lang_Star_cons r c s :
  (forall s1, lang r (String c s1) -> lang (deriv c r) s1) ->
  lang (Star r) (String c s) -> lang (Cat (deriv c r) (Star r)) s.
Proof.
  intros Hr H.
  remember (Star r) as R eqn:ER. remember (String c s) as w eqn:Ew.
  revert s Ew.
  induction H as [| | | | | |r' s1 s2 H1 _ H2 IH2]; intros t Ew;
    try discriminate ER.
  - discriminate Ew.
  - injection ER as ->.
    destruct s1 as [|c1 s1].
    + cbn in Ew. apply IH2; [reflexivity | exact Ew].
    + cbn in Ew. injection Ew as -> <-.
      constructor; [apply Hr, H1 | exact H2].
Qed.

Lemma deriv_lang r : forall c s, lang (deriv c r) s <-> lang r (String c s).
Proof.
  induction r as [| |p|r1 IH1 r2 IH2|r1 IH1 r2 IH2|r IH]; intros c s;
    cbn [deriv].
  - split; intros H; destruct (lang_Void _ H).
  - split; intros H; inversion H.
  - rewrite lang_Sym_iff. destruct (p c) eqn:P.
    + rewrite lang_Eps_iff. split.
      * intros ->. exists c. auto.
      * intros (c' & H & _). injection H as _ ->. reflexivity.
    + split; [intros H; destruct (lang_Void _ H)|].
      intros (c' & H & P'). injection H as -> _. congruence.
  - assert (Hcat : lang (Cat (deriv c r1) r2) s \/
                   (nullable r1 = true /\ lang (deriv c r2) s) <->
                   lang (Cat r1 r2) (String c s)).
    { rewrite !lang_Cat_iff. split.
      - intros [(s1 & s2 & -> & H1 & H2)|[N H]].
        + exists (String c s1), s2. rewrite <- IH1. auto.
        + exists EmptyString, (String c s).
          rewrite <- nullable_lang, <- IH2. auto.
      - intros (s1 & s2 & H & H1 & H2). destruct s1 as [|c1 s1].
        + cbn in H. subst s2. right. rewrite nullable_lang, IH2. auto.
        + cbn in H. injection H as <- ->. left.
          exists s1, s2. rewrite IH1. auto. }
    rewrite <- Hcat. destruct (nullable r1).
    + rewrite lang_Alt_iff. tauto.
    + split; [tauto|]. intros [H|[H _]]; [exact H | discriminate].
  - rewrite !lang_Alt_iff, IH1, IH2. tauto.
  - split.
    + rewrite lang_Cat_iff. intros (s1 & s2 & -> & H1 & H2).
      apply (lang_Star_app r (String c s1) s2); [apply IH, H1 | exact H2].
    + apply lang_Star_cons. intros s1. apply IH.
Qed.

Lemma matches_lang s : forall r, matches r s = true <-> lang r s.
Proof.
  induction s as [|c s IH]; intros r; cbn [matches].
  - apply nullable_lang.
  - rewrite IH. apply deriv_lang.
Qed.

Lemma lang_Star_any s : lang (Star any) s.
Proof.
  induction s as [|c s IH]; [constructor|].
  apply (lang_Star_app any (String c EmptyString) s); [|exact IH].
  constructor. reflexivity.
Qed.

(** [MatchString] holds when some substring is in the language. *)
Lemma MatchString_iff re s :
  MatchString re s = true <->
  exists pre m post, s = pre +++ m +++ post /\ lang re m.
Proof.
  unfold MatchString. rewrite matches_lang, lang_Cat_iff. split.
  - intros (pre & t & -> & _ & H). apply lang_Cat_iff in H.
    destruct H as (m & post & -> & H & _). eauto.
  - intros (pre & m & post & -> & H).
    exists pre, (m +++ post). split; [reflexivity|].
    split; [apply lang_Star_any|].
    constructor; [exact H | apply lang_Star_any].
Qed.

Lemma lang_Chr_iff c s : lang (Chr c) s <-> s = String c EmptyString.
Proof.
  unfold Chr. rewrite lang_Sym_iff. split.
  - intros (c' & -> & H). apply Ascii.eqb_eq in H. congruence.
  - intros ->. exists c. split; [reflexivity | apply Ascii.eqb_refl].
Qed.

Lemma lang_Opt_Chr_iff c s :
  lang (Opt (Chr c)) s <-> s = EmptyString \/ s = String c EmptyString.
Proof.
  unfold Opt. rewrite lang_Alt_iff, lang_Chr_iff, lang_Eps_iff. tauto.
Qed.

Lemma lang_Lit_iff w : forall s, lang (Lit w) s <-> s = w.
Proof.
  induction w as [|c w IH]; intros s; cbn [Lit].
  - apply lang_Eps_iff.
  - rewrite lang_Cat_iff. split.
    + intros (s1 & s2 & -> & H1 & H2).
      apply lang_Chr_iff in H1. apply IH in H2. subst. reflexivity.
    + intros ->. exists (String c EmptyString), w.
      rewrite lang_Chr_iff, IH. auto.
Qed.

End RegexpFacts.

(* ================================================================== *)
(** * The predicates of package rules *)

Section Predicates.

Import Regexp.

Lemma Contains_app_l s a b :
  Contains s (a +++ b) = true -> Contains s a = true.
Proof.
  rewrite !Contains_iff. intros (pre & post & ->).
  exists pre, (b +++ post). rewrite append_assoc. reflexivity.
Qed.

Lemma lang_reCRB m :
  lang Rules.reCRB m <->
  exists o1 c1 o2 o3 c2,
    m = o1 +++ String c1
                 ("cluster" +++ o2 +++ "-admin" +++ o3 +++ String c2 EmptyString) /\
    (o1 = EmptyString \/ o1 = ":") /\ (o2 = EmptyString \/ o2 = ":") /\
    (o3 = EmptyString \/ o3 = ":") /\
    Rules.outside c1 = true /\ Rules.outside c2 = true.
Proof.
  unfold Rules.reCRB. split.
  - intros H.
    apply lang_Cat_iff in H. destruct H as (o1 & t1 & -> & Ho1 & H).
    apply lang_Cat_iff in H. destruct H as (x1 & t2 & -> & Hx1 & H).
    apply lang_Cat_iff in H. destruct H as (w1 & t3 & -> & Hw1 & H).
    apply lang_Cat_iff in H. destruct H as (o2 & t4 & -> & Ho2 & H).
    apply lang_Cat_iff in H. destruct H as (h & t5 & -> & Hh & H).
    apply lang_Cat_iff in H. destruct H as (w2 & t6 & -> & Hw2 & H).
    apply lang_Cat_iff in H. destruct H as (o3 & x2 & -> & Ho3 & Hx2).
    apply lang_Opt_Chr_iff in Ho1, Ho2, Ho3.
    apply lang_Sym_iff in Hx1, Hx2.
    destruct Hx1 as (c1 & -> & Hc1). destruct Hx2 as (c2 & -> & Hc2).
    apply lang_Lit_iff in Hw1, Hw2. apply lang_Chr_iff in Hh. subst.
    exists o1, c1, o2, o3, c2. repeat split; assumption.
  - intros (o1 & c1 & o2 & o3 & c2 & -> & Ho1 & Ho2 & Ho3 & Hc1 & Hc2).
    apply (lang_Cat _ _ o1); [apply lang_Opt_Chr_iff, Ho1|].
    apply (lang_Cat _ _ (String c1 EmptyString)); [constructor; exact Hc1|].
    apply (lang_Cat _ _ "cluster"); [apply lang_Lit_iff; reflexivity|].
    apply (lang_Cat _ _ o2); [apply lang_Opt_Chr_iff, Ho2|].
    apply (lang_Cat _ _ "-"); [apply lang_Chr_iff; reflexivity|].
    apply (lang_Cat _ _ "admin"); [apply lang_Lit_iff; reflexivity|].
    apply (lang_Cat _ _ o3); [apply lang_Opt_Chr_iff, Ho3|].
    constructor. exact Hc2.
Qed.

Lemma MatchString_reCRB text :
  MatchString Rules.reCRB text = true <-> names_cluster_admin text.
Proof.
  rewrite MatchString_iff. unfold names_cluster_admin. split.
  - intros (pre & m & post & -> & H). apply lang_reCRB in H.
    destruct H as (o1 & c1 & o2 & o3 & c2 & -> & Ho1 & Ho2 & Ho3 & Hc1 & Hc2).
    destruct Ho3 as [->| ->].
    + exists (pre +++ o1), c1, o2, c2, post.
      repeat split; try assumption.
      rewrite !append_assoc. cbn [String.append].
      rewrite !append_assoc. reflexivity.
    + exists (pre +++ o1), c1, o2, ":"%char, (String c2 post).
      repeat split; try assumption.
      rewrite !append_assoc. cbn [String.append].
      rewrite !append_assoc. reflexivity.
  - intros (pre & c1 & mid & c2 & post & -> & Hmid & Hc1 & Hc2).
    exists pre,
      (String c1 ("cluster" +++ mid +++ "-admin" +++ String c2 EmptyString)),
      post.
    split.
    + cbn [String.append]. rewrite !append_assoc. cbn [String.append].
      reflexivity.
    + apply lang_reCRB.
      exists EmptyString, c1, mid, EmptyString, c2. auto 10.
Qed.

End Predicates.

(** X16.  [ClusterAdmin] counts one exactly when the text gojsonq prints
    for the query names the role cluster-admin: "cluster-admin" or
    "cluster:-admin" between two characters that are neither a letter, a
    digit, an underscore, a hyphen nor a dot.  The optional colons at both
    ends of the expression change nothing.  Otherwise it counts zero. *)
Theorem ClusterAdmin_flags Q json :
  (Rules.ClusterAdmin Q json = 1 <->
   names_cluster_admin (show_From Q json "roleRef.name")) /\
  (Rules.ClusterAdmin Q json = 0 <->
   ~ names_cluster_admin (show_From Q json "roleRef.name")).
Proof.
  unfold Rules.ClusterAdmin. rewrite <- MatchString_reCRB.
  destruct (Regexp.MatchString Rules.reCRB (show_From Q json "roleRef.name"));
    cbn; repeat split; try discriminate; try reflexivity; try congruence.
Qed.

(** X17.  [ExecPodsClusterRole] counts one exactly when the API groups
    printed hold "[]", the resources hold "pods" and the verbs hold "*" or
    both "get" and "create"; the two branches for "pods/exec" never decide.
    Otherwise it counts zero. *)
Theorem ExecPodsClusterRole_flags Q json :
  let api := Sprintf_v (From_Only Q json "rules" "apiGroups") in
  let resources := Sprintf_v (From_Only Q json "rules" "resources") in
  let verbs := Sprintf_v (From_Only Q json "rules" "verbs") in
  Rules.ExecPodsClusterRole Q json =
    if Contains api "[]" && Contains resources "pods" &&
       (Contains verbs "*" || Contains verbs "get" && Contains verbs "create")
    then 1 else 0.
Proof.
  cbv zeta. unfold Rules.ExecPodsClusterRole.
  pose proof (Contains_app_l
                (Sprintf_v (From_Only Q json "rules" "resources"))
                "pods" "/exec") as Hsub.
  cbn [String.append] in Hsub.
  destruct (Contains (Sprintf_v (From_Only Q json "rules" "apiGroups")) "[]");
    [|reflexivity].
  destruct (Contains (Sprintf_v (From_Only Q json "rules" "resources")) "pods").
  - destruct (Contains (Sprintf_v (From_Only Q json "rules" "verbs")) "*");
      [reflexivity|].
    destruct (Contains (Sprintf_v (From_Only Q json "rules" "verbs")) "get"),
             (Contains (Sprintf_v (From_Only Q json "rules" "verbs")) "create"),
             (Contains (Sprintf_v (From_Only Q json "rules" "resources"))
                       "pods/exec");
      reflexivity.
  - destruct (Contains (Sprintf_v (From_Only Q json "rules" "resources"))
                       "pods/exec");
      [specialize (Hsub eq_refl); discriminate|].
    cbn. reflexivity.
Qed.

(** X18.  [RemoveEventsClusterRole] counts one exactly when the API groups
    printed hold "[]", the resources hold "[events]" and the verbs hold "*"
    or "deletecollection"; the verb "delete" without "deletecollection" is
    not counted.  Otherwise it counts zero. *)
Theorem RemoveEventsClusterRole_flags Q json :
  let api := Sprintf_v (From_Only Q json "rules" "apiGroups") in
  let resources := Sprintf_v (From_Only Q json "rules" "resources") in
  let verbs := Sprintf_v (From_Only Q json "rules" "verbs") in
  Rules.RemoveEventsClusterRole Q json =
    if Contains api "[]" && Contains resources "[events]" &&
       (Contains verbs "*" || Contains verbs "deletecollection")
    then 1 else 0.
Proof.
  cbv zeta. unfold Rules.RemoveEventsClusterRole.
  pose proof (Contains_app_l
                (Sprintf_v (From_Only Q json "rules" "verbs"))
                "delete" "collection") as Hsub.
  cbn [String.append] in Hsub.
  destruct (Contains (Sprintf_v (From_Only Q json "rules" "apiGroups")) "[]");
    [|reflexivity].
  destruct (Contains (Sprintf_v (From_Only Q json "rules" "resources"))
                     "[events]"); [|reflexivity].
  destruct (Contains (Sprintf_v (From_Only Q json "rules" "verbs")) "*");
    [reflexivity|].
  destruct (Contains (Sprintf_v (From_Only Q json "rules" "verbs"))
                     "deletecollection").
  - rewrite (Hsub eq_refl). reflexivity.
  - cbn. rewrite andb_false_r. reflexivity.
Qed.

(** X19.  [CustomResourceClusterRole] counts one exactly when the API
    groups printed hold "[apiextensions.k8s.io]", the resources hold
    "[customresourcedefinitions]" and the verbs hold one of "*", "create",
    "patch", "update" and "delete"; the branch for "deletecollection" never
    decides.  Otherwise it counts zero. *)
Theorem CustomResourceClusterRole_flags Q json :
  let api := Sprintf_v (From_Only Q json "rules" "apiGroups") in
  let resources := Sprintf_v (From_Only Q json "rules" "resources") in
  let verbs := Sprintf_v (From_Only Q json "rules" "verbs") in
  Rules.CustomResourceClusterRole Q json =
    if Contains api "[apiextensions.k8s.io]" &&
       Contains resources "[customresourcedefinitions]" &&
       (Contains verbs "*" || Contains verbs "create" ||
        Contains verbs "patch" || Contains verbs "update" ||
        Contains verbs "delete")
    then 1 else 0.
Proof.
  cbv zeta. unfold Rules.CustomResourceClusterRole.
  pose proof (Contains_app_l
                (Sprintf_v (From_Only Q json "rules" "verbs"))
                "delete" "collection") as Hsub.
  cbn [String.append] in Hsub.
  destruct (Contains (Sprintf_v (From_Only Q json "rules" "apiGroups"))
                     "[apiextensions.k8s.io]"); [|reflexivity].
  destruct (Contains (Sprintf_v (From_Only Q json "rules" "resources"))
                     "[customresourcedefinitions]"); [|reflexivity].
  destruct (Contains (Sprintf_v (From_Only Q json "rules" "verbs")) "*");
    [reflexivity|].
  destruct (Contains (Sprintf_v (From_Only Q json "rules" "verbs")) "create");
    [reflexivity|].
  destruct (Contains (Sprintf_v (From_Only Q json "rules" "verbs")) "patch");
    [reflexivity|].
  destruct (Contains (Sprintf_v (From_Only Q json "rules" "verbs")) "update");
    [reflexivity|].
  destruct (Contains (Sprintf_v (From_Only Q json "rules" "verbs")) "delete");
    [reflexivity|].
  destruct (Contains (Sprintf_v (From_Only Q json "rules" "verbs"))
                     "deletecollection");
    [specialize (Hsub eq_refl); discriminate | reflexivity].
Qed.

(** X20.  Every predicate of the package counts zero or one, whatever the
    document; [StarAllCoreAPIClusterRole] counts one whenever the query for
    the API groups is nil. *)
Theorem predicates_count_at_most_one Q json :
  let counts := [Rules.ClusterAdmin Q json;
                 Rules.CustomResourceClusterRole Q json;
                 Rules.ExecPodsClusterRole Q json;
                 Rules.RemoveEventsClusterRole Q json;
                 Rules.StarAllCoreAPIClusterRole Q json] in
  Forall (fun n => n = 0 \/ n = 1) counts /\
  match From_Only Q json "rules" "apiGroups" with
  | None => Rules.StarAllCoreAPIClusterRole Q json = 1
  | Some _ => True
  end.
Proof.
  cbv zeta. split.
  - apply Forall_cons; [|apply Forall_cons; [|apply Forall_cons;
      [|apply Forall_cons; [|apply Forall_cons; [|apply Forall_nil]]]]].
    + unfold Rules.ClusterAdmin. destruct (Regexp.MatchString _ _); auto.
    + unfold Rules.CustomResourceClusterRole.
      repeat (destruct (_ && _)%bool; [auto|]). auto.
    + unfold Rules.ExecPodsClusterRole.
      repeat (destruct (_ && _)%bool; [auto|]). auto.
    + unfold Rules.RemoveEventsClusterRole.
      repeat (destruct (_ && _)%bool; [auto|]). auto.
    + unfold Rules.StarAllCoreAPIClusterRole.
      destruct (_ || _)%bool; auto.
  - unfold Rules.StarAllCoreAPIClusterRole.
    destruct (From_Only Q json "rules" "apiGroups"); [exact I | reflexivity].
Qed.

Example ClusterAdmin_quoted_name :
  Rules.ClusterAdmin
    (shown_as ("name:" +++ dquote +++ "cluster-admin" +++ dquote)) "{}" = 1.
Proof. vm_compute. reflexivity. Qed.

Example ClusterAdmin_longer_name :
  Rules.ClusterAdmin
    (shown_as ("name:" +++ dquote +++ "my-cluster-admin-view" +++ dquote))
    "{}" = 0.
Proof. vm_compute. reflexivity. Qed.

Example RemoveEvents_delete_only :
  Rules.RemoveEventsClusterRole
    (cluster_role "[map[apiGroups:[]]]" "[map[resources:[events]]]"
                  "[map[verbs:[delete]]]") "{}" = 0.
Proof. vm_compute. reflexivity. Qed.

Example ExecPods_get_create :
  Rules.ExecPodsClusterRole
    (cluster_role "[map[apiGroups:[]]]" "[map[resources:[pods/exec]]]"
                  "[map[verbs:[get create]]]") "{}" = 1.
Proof. vm_compute. reflexivity. Qed.

(* ================================================================== *)
(** * White space *)

Section WhiteSpace.

Lemma trim_left_blanks l : forall fuel,
  Forall (fun a => space_rune [a] = true) l ->
  (List.length l <= fuel)%nat -> trim_left fuel l = [].
Proof.
  induction l as [|a l IH]; intros fuel F Hl.
  - destruct fuel; reflexivity.
  - destruct fuel as [|fuel]; [cbn in Hl; lia|].
    inversion F as [|? ? Ha Fl]; subst.
    cbn [trim_left]. unfold leading_space. cbn [firstn]. rewrite Ha.
    cbn [skipn]. apply IH; [exact Fl | cbn in Hl; lia].
Qed.

Lemma only_blanks_bytes s :
  only_blanks s = true ->
  Forall (fun a => space_rune [a] = true)
         (map N_of_ascii (list_ascii_of_string s)).
Proof.
  induction s as [|c s IH]; cbn [only_blanks list_ascii_of_string map];
    intros H; [constructor|].
  apply andb_true_iff in H. destruct H as [Hc Hs].
  constructor; [exact Hc | apply IH, Hs].
Qed.

Lemma TrimSpace_only_blanks s :
  only_blanks s = true -> TrimSpace s = EmptyString.
Proof.
  intros H. unfold TrimSpace.
  rewrite trim_left_blanks; [reflexivity | apply only_blanks_bytes, H | lia].
Qed.

Lemma only_blanks_app s t :
  only_blanks (s +++ t) = only_blanks s && only_blanks t.
Proof.
  induction s as [|c s IH]; cbn [String.append only_blanks]; [reflexivity|].
  rewrite IH, andb_assoc. reflexivity.
Qed.

Lemma split_from_only_blanks sep s : forall skip cur,
  only_blanks cur = true -> only_blanks s = true ->
  forallb only_blanks (split_from sep skip cur s) = true.
Proof.
  induction s as [|c s IH]; intros skip cur Hc Hs; cbn [split_from].
  - cbn. rewrite Hc. reflexivity.
  - cbn [only_blanks] in Hs. apply andb_true_iff in Hs.
    destruct Hs as [Hc' Hs].
    destruct skip; [|apply IH; assumption].
    destruct (String.prefix sep (String c s)).
    + cbn [forallb]. rewrite Hc. apply IH; [reflexivity | exact Hs].
    + apply IH; [|exact Hs].
      rewrite only_blanks_app, Hc. cbn [only_blanks andb].
      rewrite Hc'. reflexivity.
Qed.

Lemma forallb_impl (f g : string -> bool) l :
  (forall x, f x = true -> g x = true) ->
  forallb f l = true -> forallb g l = true.
Proof.
  intros H. induction l as [|x l IH]; cbn [forallb]; [reflexivity|].
  rewrite !andb_true_iff. intros [Hx Hl]. auto.
Qed.

End WhiteSpace.

(** X21.  A fragment of ASCII blanks only is skipped, and an input of ASCII
    blanks only, which is not JSON, makes [Run] fail with the invalid-input
    error and no report. *)
Theorem blank_input_is_invalid E rs scheds fileName fileBytes schemaDir :
  json_Valid E fileBytes = false ->
  only_blanks fileBytes = true ->
  skipped fileBytes = true /\
  Run E rs scheds fileName fileBytes schemaDir = ([], Some InvalidInputError).
Proof.
  intros HJ HB. split.
  - unfold skipped. rewrite TrimSpace_only_blanks by exact HB. reflexivity.
  - apply Run_with_all_skipped; [exact HJ|].
    eapply forallb_impl; [|apply split_from_only_blanks; [reflexivity|exact HB]].
    intros d Hd. unfold skipped.
    rewrite TrimSpace_only_blanks by exact Hd. reflexivity.
Qed.

Lemma blank_input_is_invalid_witness :
  skipped (" " +++ LF +++ CR +++ LF +++ "  ") = true /\
  Run bare_pod NewRuleset (fun _ => fifo) "empty.yaml"
      (" " +++ LF +++ CR +++ LF +++ "  ") EmptyString =
    ([], Some InvalidInputError).
Proof.
  apply (blank_input_is_invalid bare_pod NewRuleset (fun _ => fifo)
           "empty.yaml" (" " +++ LF +++ CR +++ LF +++ "  ") EmptyString);
    reflexivity.
Defined.

(* ================================================================== *)
(** * Valid reports of the copy that validates *)

(** X22.  In the copy that validates, a report is valid exactly when the
    validator accepts the document, and it is then the report of the first
    copy; a report that is not valid has score 0, no Rules and empty
    buckets. *)
Theorem validating_report_valid_iff_accepted
  E rs sch fileName json schemaDir :
  let r := Validating.generateReport E rs sch fileName json schemaDir in
  Valid r = accepted E fileName json schemaDir /\
  if Valid r
  then r = generateReport E rs sch fileName json schemaDir
  else Score r = 0 /\ Rules r = [] /\ Scoring r = empty_scoring.
Proof.
  intros r. subst r. unfold accepted.
  rewrite generateReport_kubeval_cases.
  destruct (kubeval_Validate E json _) as [results|err].
  - destruct (existsb rejected results); cbn [negb].
    + cbn. auto.
    + destruct (generateReport_fields E rs sch fileName json schemaDir)
        as (_ & _ & HV & _).
      rewrite HV. auto.
  - cbn. auto.
Qed.

(* ================================================================== *)
(** * The channel is large enough *)

Section Capacity.

Lemma results_length E json rules :
  (List.length (flat_map (eval E json) rules) <= List.length rules)%nat.
Proof.
  induction rules as [|r rules IH]; cbn [flat_map List.length]; [lia|].
  rewrite length_app. pose proof (eval_at_most_one E json r). lia.
Qed.

Lemma unique_from_length ch : forall acc,
  (List.length (fold_left appendUniqueRule ch acc) <=
   List.length acc + List.length ch)%nat.
Proof.
  induction ch as [|r ch IH]; intros acc; cbn [fold_left List.length]; [lia|].
  specialize (IH (appendUniqueRule acc r)).
  assert ((List.length (appendUniqueRule acc r) <= S (List.length acc))%nat).
  { unfold appendUniqueRule. destruct (negb (containsRule acc r));
      [rewrite length_app; cbn; lia | lia]. }
  lia.
Qed.

End Capacity.

(** X23.  The goroutines send at most as many results as the channel holds,
    which is the number of rules of the catalog; hence at most that many
    rules are applied, and Rules has at most as many entries as rules were
    applied. *)
Theorem results_fit_the_channel E rs sch fileName json schemaDir :
  let r := generateReport E rs sch fileName json schemaDir in
  let capacity := List.length (rs_Rules rs) in
  (List.length (dispatch E sch rs json) <= capacity)%nat /\
  0 <= appliedRules E rs sch fileName json schemaDir <= Z.of_nat capacity /\
  Z.of_nat (List.length (Rules r)) <=
    appliedRules E rs sch fileName json schemaDir.
Proof.
  intros r capacity. subst r capacity.
  destruct (generateReport_fields E rs sch fileName json schemaDir)
    as (_ & _ & _ & HR & _ & _ & _ & _ & _ & HN).
  assert (L : (List.length (dispatch E sch rs json) <=
               List.length (rs_Rules rs))%nat).
  { unfold dispatch.
    rewrite <- (Permutation_length (arrival_perm sch (rs_Rules rs))).
    apply results_length. }
  rewrite HN, HR. split; [exact L|]. split; [lia|].
  pose proof (unique_from_length (dispatch E sch rs json) []) as U.
  unfold unique_results. cbn [List.length] in U. lia.
Qed.
